(** * The bounded stream-compression adapter of the TLS record layer

    A shallow embedding of [src/daemon/https/tls/gnutls_compress_int.c]
    (the deflate branch, i.e. the text under [HAVE_LIBZ]) together with the
    properties of [mhd_gtls_comp_init], [mhd_gtls_comp_deinit],
    [mhd_gtls_compress] and [mhd_gtls_decompress].

    Conventions of the embedding.
    - Machine integers are values of [Z]; every conversion the C text performs
      is written out ([to_size_t], [to_uLongf], [to_uInt], [to_int]) for the
      LP64 data model: [size_t] and [uLongf] have 64 bits, zlib's [uInt] and
      C's [int] have 32 bits.
    - Memory is a finite map from locations to typed objects: the blocks
      obtained from the allocator.  The allocator is fallible: a script of
      booleans held in the world decides, call by call, whether an
      allocation succeeds; when the script is exhausted every further
      allocation succeeds, whatever its size.
    - The compression engine (zlib) is not part of the sources.  It is an
      interface ([Zlib]) whose operations transform a [z_stream] and report
      the bytes they wrote at [next_out].  The operations are total: what
      the engine does with a stream of the other direction is whatever the
      instance says.  The private data of the engine hangs off the [state]
      field of the stream; the world keeps account of the private data that
      was orphaned because the block of its stream was released first.
    - The bytes an engine reports are stored at [next_out]; those that
      would fall outside the block are dropped.  The statements that speak
      of what was written carry the bounds under which nothing is dropped
      ([writes_within_output], [cursor_in_buffer],
      [pass_write_in_bounds]).
    - [err] and [cur_pos] are used by the C text without a declaration in
      scope; they are modelled as variables of type [int] whose lifetime is
      one call.
    - What is assumed of the engine is stated where it is used, as a
      hypothesis on the [Zlib] operations ([keeps_output_space],
      [writes_within_output], [makes_progress], [encoder_contract],
      [decoder_contract]). *)

From Stdlib Require Import ZArith List Lia.
From Stdlib Require Import Init.Byte.
From stdpp Require Import base option list gmap.

Local Open Scope Z_scope.

#[local] Set Warnings "-clear-no-such-hyp".

(** ** Machine integers *)

Definition size_t_bits : Z := 64.
Definition uInt_bits : Z := 32.

Definition to_size_t (z : Z) : Z := z mod 2 ^ size_t_bits.
Definition to_uLongf (z : Z) : Z := z mod 2 ^ size_t_bits.
Definition to_uInt (z : Z) : Z := z mod 2 ^ uInt_bits.
Definition to_int (z : Z) : Z := (z + 2 ^ 31) mod 2 ^ 32 - 2 ^ 31.

(** ** zlib constants (zlib.h) *)

Definition Z_OK : Z := 0.
Definition Z_BUF_ERROR : Z := -5.
Definition Z_STREAM_ERROR : Z := -2.
Definition Z_SYNC_FLUSH : Z := 2.
Definition Z_DEFLATED : Z := 8.
Definition Z_DEFAULT_STRATEGY : Z := 0.

(** ** Data model *)

Abbreviation loc := positive (only parsing).

(** [enum MHD_GNUTLS_CompressionMethod]; the source names two enumerators,
    every other value of the enumeration is [MHD_GNUTLS_COMP_UNKNOWN]. *)
Inductive CompressionMethod : Type :=
| MHD_GNUTLS_COMP_UNKNOWN
| MHD_GNUTLS_COMP_NULL
| MHD_GNUTLS_COMP_DEFLATE.

Section Stream.
Variable engine_state : Type.

(** zlib's [z_stream], restricted to the fields the adapter touches.
    [next_in] is the input still ahead of the cursor, [next_out] a buffer
    and an offset into it, [state] the engine's private data. *)
Record z_stream : Type := ZStream {
  next_in : list byte;
  avail_in : Z;
  next_out : option (loc * Z);
  avail_out : Z;
  zalloc : Z;
  zfree : Z;
  opaque : Z;
  state : option engine_state
}.

Definition blank_stream : z_stream :=
  ZStream [] 0 None 0 0 0 0 None.

Definition set_allocators (zs : z_stream) (a f o : Z) : z_stream :=
  ZStream (next_in zs) (avail_in zs) (next_out zs) (avail_out zs) a f o (state zs).

Definition set_input (zs : z_stream) (p : list byte) (n : Z) : z_stream :=
  ZStream p n (next_out zs) (avail_out zs) (zalloc zs) (zfree zs) (opaque zs) (state zs).

Definition set_output (zs : z_stream) (p : option (loc * Z)) (n : Z) : z_stream :=
  ZStream (next_in zs) (avail_in zs) p n (zalloc zs) (zfree zs) (opaque zs) (state zs).

(** What lives in memory: a [struct comp_hd_t_STRUCT], a [z_stream], or an
    array of [opaque] bytes. *)
Inductive object : Type :=
| comp_hd_t_STRUCT (algo : CompressionMethod) (handle : option loc)
| Stream (zs : z_stream)
| Buffer (data : list byte).

(** The world: the blocks obtained from the allocator, the allocator's
    script and the count of its refusals, the count of transform calls, and
    the engine states that were orphaned.  The private data of the engine
    hangs off the [state] field of its [z_stream]; it is the engine's to
    release, and it is orphaned (it has leaked) when the block of the
    [z_stream] is released while [state] still holds it. *)
Record world : Type := World {
  heap : gmap loc object;
  alloc_script : list bool;
  alloc_failures : nat;
  transforms : nat;
  orphaned : list engine_state
}.

Definition with_heap (w : world) (h : gmap loc object) : world :=
  World h (alloc_script w) (alloc_failures w) (transforms w) (orphaned w).

Definition store (l : loc) (o : object) (w : world) : world :=
  with_heap w (<[l := o]> (heap w)).

(** *** The allocator *)

(** [gnutls_malloc]: the block starts out as [o] (its indeterminate
    contents). *)
Definition gnutls_malloc (o : object) (w : world) : option loc * world :=
  match alloc_script w with
  | false :: s =>
      (None, World (heap w) s (S (alloc_failures w)) (transforms w) (orphaned w))
  | s =>
      let l := fresh (dom (heap w)) in
      (Some l, World (<[l := o]> (heap w)) (tail s) (alloc_failures w) (transforms w)
                 (orphaned w))
  end.

(** The engine state that the object [o] still holds. *)
Definition held_state (o : option object) : list engine_state :=
  match o with
  | Some (Stream zs) => match state zs with Some s => [s] | None => [] end
  | _ => []
  end.

(** [gnutls_free]: the block is released; an engine state that a [z_stream]
    in it still holds is orphaned. *)
Definition gnutls_free (p : option loc) (w : world) : world :=
  match p with
  | None => w
  | Some l =>
      World (delete l (heap w)) (alloc_script w) (alloc_failures w) (transforms w)
        (orphaned w ++ held_state (heap w !! l))
  end.

(** [gnutls_free] of a pointer that may dangle: releasing a block that is
    not live (and not null) is undefined. *)
Definition gnutls_free_live (p : option loc) (w : world) : option world :=
  match p with
  | None => Some w
  | Some l => if decide (l ∈ dom (heap w)) then Some (gnutls_free p w) else None
  end.

Definition buffer_at (p : option loc) (w : world) : list byte :=
  match p with
  | Some l => match heap w !! l with Some (Buffer d) => d | _ => [] end
  | None => []
  end.

(** Modelled from the spec: [mhd_gtls_realloc_fast] is defined in another
    file of the repository.  The spec treats memory as a fallible allocator
    returning null on failure and requires that a failed growth step
    releases the buffer; a successful step yields a buffer of the requested
    capacity that keeps the bytes written so far. *)
Definition mhd_gtls_realloc_fast (p : option loc) (size : Z) (w : world)
  : option loc * world :=
  match alloc_script w with
  | false :: s =>
      (None, World (heap (gnutls_free p w)) s (S (alloc_failures w)) (transforms w)
               (orphaned (gnutls_free p w)))
  | s =>
      let l := match p with Some l => l | None => fresh (dom (heap w)) end in
      let d := resize (Z.to_nat size) x00 (buffer_at p w) in
      (Some l, World (<[l := Buffer d]> (heap w)) (tail s) (alloc_failures w) (transforms w)
                 (orphaned w))
  end.

(** *** The effect of one engine call on memory *)

(** The bytes [bs] stored from offset [off] of the block [l] on.  Bytes that
    would fall outside the block are dropped, and a negative offset counts
    as 0: a write outside the block is not modelled. *)
Definition store_bytes (dst : option (loc * Z)) (bs : list byte)
  (h : gmap loc object) : gmap loc object :=
  match dst with
  | Some (l, off) =>
      match h !! l with
      | Some (Buffer d) => <[l := Buffer (list_inserts (Z.to_nat off) bs d)]> h
      | _ => h
      end
  | None => h
  end.

(** The engine was run on the stream stored at [zhandle]: it leaves the
    stream [zs'] there and has written [bs] at [dst]. *)
Definition engine_effect (zhandle : loc) (dst : option (loc * Z))
  (zs' : z_stream) (bs : list byte) (w : world) : world :=
  World (<[zhandle := Stream zs']> (store_bytes dst bs (heap w)))
        (alloc_script w) (alloc_failures w) (S (transforms w)) (orphaned w).

(** What a call hands back: the [int] it returns, the value of the caller's
    output pointer afterwards, and the world; or undefined behaviour, when a
    pointer that is not a live object of the expected type is dereferenced. *)
Inductive outcome : Type :=
| Returned (ret : Z) (out : option loc) (w : world)
| Undefined.

End Stream.

Arguments blank_stream {engine_state}.
Arguments comp_hd_t_STRUCT {engine_state} algo handle.
Arguments Stream {engine_state} zs.
Arguments Buffer {engine_state} data.
Arguments Undefined {engine_state}.
Arguments Returned {engine_state} ret out w.
Arguments next_in {engine_state} z.
Arguments avail_in {engine_state} z.
Arguments next_out {engine_state} z.
Arguments avail_out {engine_state} z.
Arguments state {engine_state} z.
Arguments heap {engine_state} w.
Arguments alloc_script {engine_state} w.
Arguments alloc_failures {engine_state} w.
Arguments transforms {engine_state} w.
Arguments orphaned {engine_state} w.
Arguments held_state {engine_state}.
Arguments gnutls_free_live {engine_state}.
Arguments zalloc {engine_state} z.
Arguments zfree {engine_state} z.
Arguments opaque {engine_state} z.
Arguments ZStream {engine_state}.
Arguments World {engine_state}.
Arguments set_allocators {engine_state}.
Arguments set_input {engine_state}.
Arguments set_output {engine_state}.
Arguments with_heap {engine_state}.
Arguments store {engine_state}.
Arguments gnutls_malloc {engine_state}.
Arguments gnutls_free {engine_state}.
Arguments buffer_at {engine_state}.
Arguments mhd_gtls_realloc_fast {engine_state}.
Arguments store_bytes {engine_state} : simpl never.
Arguments engine_effect {engine_state}.

(** ** The collaborators that are not in the sources *)

(** The compression engine.  A transform call takes the stream and the flush
    mode and gives the status, the stream afterwards and the bytes written at
    [next_out]. *)
Class Zlib (engine_state : Type) : Type := {
  deflateInit2 :
    z_stream engine_state -> Z -> Z -> Z -> Z -> Z -> Z * z_stream engine_state;
  inflateInit2 : z_stream engine_state -> Z -> Z * z_stream engine_state;
  deflate : z_stream engine_state -> Z -> Z * z_stream engine_state * list byte;
  inflate : z_stream engine_state -> Z -> Z * z_stream engine_state * list byte;
  deflateEnd : z_stream engine_state -> Z * z_stream engine_state;
  inflateEnd : z_stream engine_state -> Z * z_stream engine_state
}.

(** Constants and tables of the surrounding library: the slack constant, the
    error codes and the per-algorithm parameters. *)
Class Gnutls : Type := {
  EXTRA_COMP_SIZE : Z;
  GNUTLS_E_MEMORY_ERROR : Z;
  GNUTLS_E_DECOMPRESSION_FAILED : Z;
  GNUTLS_E_COMPRESSION_FAILED : Z;
  GNUTLS_E_INTERNAL_ERROR : Z;
  mhd_gtls_compression_get_wbits : CompressionMethod -> Z;
  mhd_gtls_compression_get_mem_level : CompressionMethod -> Z;
  mhd_gtls_compression_get_comp_level : CompressionMethod -> Z
}.

(** ** The operations *)

Section Adapter.
Context {engine_state : Type} `{!Zlib engine_state} `{!Gnutls}.

Abbreviation z_stream := (z_stream engine_state).
Abbreviation world := (world engine_state).
Abbreviation outcome := (outcome engine_state).

(** *** Handle lifecycle *)

(** [mhd_gtls_comp_init method d]: the new handle, or [None] for [NULL]. *)
Definition mhd_gtls_comp_init (method : CompressionMethod) (d : Z) (w : world)
  : option loc * world :=
  match gnutls_malloc (comp_hd_t_STRUCT MHD_GNUTLS_COMP_UNKNOWN None) w with
  | (None, w1) => (None, w1)
  | (Some ret, w1) =>
      let w2 := store ret (comp_hd_t_STRUCT method None) w1 in
      match method with
      | MHD_GNUTLS_COMP_DEFLATE =>
          let window_bits := mhd_gtls_compression_get_wbits method in
          let mem_level := mhd_gtls_compression_get_mem_level method in
          let comp_level := mhd_gtls_compression_get_comp_level method in
          match gnutls_malloc (Stream blank_stream) w2 with
          | (None, w3) =>
              (* cleanup_ret *)
              (None, gnutls_free (Some ret) w3)
          | (Some zhandle, w3) =>
              let w4 := store ret (comp_hd_t_STRUCT method (Some zhandle)) w3 in
              let zs := set_allocators blank_stream 0 0 0 in
              let '(err, zs') :=
                if d =? 0
                then deflateInit2 zs comp_level Z_DEFLATED window_bits mem_level
                       Z_DEFAULT_STRATEGY
                else inflateInit2 zs window_bits in
              let w5 := store zhandle (Stream zs') w4 in
              if negb (err =? Z_OK)
              then (None, gnutls_free (Some ret) (gnutls_free (Some zhandle) w5))
              else (Some ret, w5)
          end
      | _ => (Some ret, w2)
      end
  end.

(** The stream an engine handle points to, if it is one. *)
Definition stream_at (zhandle : option loc) (w : world) : option z_stream :=
  match zhandle with
  | Some z => match heap w !! z with Some (Stream zs) => Some zs | _ => None end
  | None => None
  end.

(** [mhd_gtls_comp_deinit handle d]; [None] (undefined behaviour) when the
    handle dangles, when the End operation is handed a pointer that is not
    a live [z_stream], or when a block that is not live is released.  The
    status of the End operation is dropped.  (For a null engine pointer
    the End operations of zlib report [Z_STREAM_ERROR] and do nothing.) *)
Definition mhd_gtls_comp_deinit (handle : option loc) (d : Z) (w : world)
  : option world :=
  match handle with
  | None => Some w
  | Some h =>
      match heap w !! h with
      | Some (comp_hd_t_STRUCT algo zhandle) =>
          let ended :=
            match algo, zhandle with
            | MHD_GNUTLS_COMP_DEFLATE, Some z =>
                match stream_at zhandle w with
                | Some zs =>
                    let '(_, zs') := if d =? 0 then deflateEnd zs else inflateEnd zs in
                    Some (store z (Stream zs') w)
                | None => None
                end
            | _, _ => Some w
            end in
          match ended with
          | Some w1 =>
              match gnutls_free_live zhandle w1 with
              | Some w2 => gnutls_free_live (Some h) w2
              | None => None
              end
          | None => None
          end
      | _ => None
      end
  end.

(** *** Compress *)

(** How the [switch] of an operation is left: by a [return] inside it, or
    by [break] with the size computed, the output pointer and the world. *)
Inductive switch_exit : Type :=
| Return (o : outcome)
| Break (size : Z) (out : option loc) (w : world).

(** [size = (plain_size + plain_size) + 10], computed in [size_t] and kept
    in a [uLongf]. *)
Definition compress_capacity (plain_size : Z) : Z :=
  to_uLongf (to_size_t (plain_size + plain_size) + 10).

(** The stream as [mhd_gtls_compress] sets it up before the engine call. *)
Definition compress_stream (zs : z_stream) (plain : list byte) (plain_size : Z)
  (buf : loc) (size : Z) : z_stream :=
  set_output (set_input zs plain (to_uInt plain_size))
    (Some (buf, 0)) (to_uInt size).

Definition compress_switch (h : loc) (plain : list byte) (plain_size : Z)
  (compressed : option loc) (w : world) : switch_exit :=
  match heap w !! h with
  | Some (comp_hd_t_STRUCT MHD_GNUTLS_COMP_DEFLATE zhandle) =>
      let size := compress_capacity plain_size in
      match gnutls_malloc (Buffer (replicate (Z.to_nat size) x00)) w with
      | (None, w1) => Return (Returned GNUTLS_E_MEMORY_ERROR None w1)
      | (Some buf, w1) =>
          match zhandle, stream_at zhandle w1 with
          | Some z, Some zs =>
              let zs1 := compress_stream zs plain plain_size buf size in
              let '(err, zs2, bs) := deflate zs1 Z_SYNC_FLUSH in
              let w2 := engine_effect z (next_out zs1) zs2 bs w1 in
              if negb (err =? Z_OK) || negb (avail_in zs2 =? 0)
              then Return (Returned GNUTLS_E_COMPRESSION_FAILED None
                             (gnutls_free (Some buf) w2))
              else Break (to_int (to_uLongf (size - avail_out zs2))) (Some buf) w2
          | _, _ => Return Undefined
          end
      end
  | Some (comp_hd_t_STRUCT _ _) =>
      Return (Returned GNUTLS_E_INTERNAL_ERROR compressed w)
  | _ => Return Undefined
  end.

Definition mhd_gtls_compress (handle : option loc) (plain : list byte)
  (plain_size : Z) (compressed : option loc) (max_comp_size : Z) (w : world)
  : outcome :=
  match handle with
  | None => Returned GNUTLS_E_INTERNAL_ERROR compressed w
  | Some h =>
      match compress_switch h plain plain_size compressed w with
      | Return o => o
      | Break compressed_size out w' =>
          if to_size_t compressed_size >? max_comp_size
          then Returned GNUTLS_E_COMPRESSION_FAILED None (gnutls_free out w')
          else Returned compressed_size out w'
      end
  end.

(** *** Decompress *)

(** The variables that are live at the head of the growth loop. *)
Record loop_state : Type := LoopState {
  out_size : Z;
  cur_pos : Z;
  plain_ptr : option loc;
  lw : world
}.

(** One pass through the body of the [do ... while]. *)
Inductive pass_exit : Type :=
| PassReturn (o : outcome)
| PassEnd (err : Z) (zs : z_stream) (st : loop_state).

Definition inflate_pass (zhandle : loc) (st : loop_state) : pass_exit :=
  let out_size' := to_uLongf (out_size st + 512) in
  match mhd_gtls_realloc_fast (plain_ptr st) out_size' (lw st) with
  | (None, w1) => PassReturn (Returned GNUTLS_E_MEMORY_ERROR None w1)
  | (Some p, w1) =>
      match stream_at (Some zhandle) w1 with
      | Some zs =>
          let zs1 :=
            set_output zs (Some (p, cur_pos st))
              (to_uInt (to_uLongf (out_size' - cur_pos st))) in
          let '(err, zs2, bs) := inflate zs1 Z_SYNC_FLUSH in
          let w2 := engine_effect zhandle (next_out zs1) zs2 bs w1 in
          PassEnd err zs2
            (LoopState out_size' (to_int (to_uLongf (out_size' - avail_out zs2)))
               (Some p) w2)
      | None => PassReturn Undefined
      end
  end.

(** The two reasons to go round again. *)
Definition continues_on_buf_error (max_record_size : Z) (err : Z) (zs : z_stream)
  (st : loop_state) : bool :=
  (err =? Z_BUF_ERROR) && (avail_out zs =? 0) && (out_size st <? max_record_size).

Definition continues_on_ok (err : Z) (zs : z_stream) : bool :=
  (err =? Z_OK) && negb (avail_in zs =? 0).

Definition loop_continues (max_record_size : Z) (err : Z) (zs : z_stream)
  (st : loop_state) : bool :=
  continues_on_buf_error max_record_size err zs st || continues_on_ok err zs.

(** The growth loop; [None] when [fuel] passes were not enough to leave it. *)
Fixpoint inflate_loop (fuel : nat) (zhandle : loc) (max_record_size : Z)
  (st : loop_state) : option pass_exit :=
  match fuel with
  | O => None
  | S fuel' =>
      match inflate_pass zhandle st with
      | PassReturn o => Some (PassReturn o)
      | PassEnd err zs st' =>
          if loop_continues max_record_size err zs st'
          then inflate_loop fuel' zhandle max_record_size st'
          else Some (PassEnd err zs st')
      end
  end.

(** The passes of the growth loop started in [st0]: [pass_reached st0 k err
    zs st] says that some pass ended with status [err], stream [zs] and
    variables [st], after [k] of the earlier passes had ended with [Z_OK] and
    unconsumed input (every other earlier pass had ended with
    [Z_BUF_ERROR], no output space left and a capacity below the maximum). *)
Inductive pass_reached (zhandle : loc) (max_record_size : Z) (st0 : loop_state)
  : nat -> Z -> z_stream -> loop_state -> Prop :=
| first_pass err zs st :
    inflate_pass zhandle st0 = PassEnd err zs st ->
    pass_reached zhandle max_record_size st0 0 err zs st
| pass_after_buf_error k err zs st err' zs' st' :
    pass_reached zhandle max_record_size st0 k err zs st ->
    continues_on_buf_error max_record_size err zs st = true ->
    inflate_pass zhandle st = PassEnd err' zs' st' ->
    pass_reached zhandle max_record_size st0 k err' zs' st'
| pass_after_ok k err zs st err' zs' st' :
    pass_reached zhandle max_record_size st0 k err zs st ->
    continues_on_ok err zs = true ->
    inflate_pass zhandle st = PassEnd err' zs' st' ->
    pass_reached zhandle max_record_size st0 (S k) err' zs' st'.

(** The loop state [mhd_gtls_decompress] enters the loop with. *)
Definition decompress_entry (z : loc) (zs : z_stream) (compressed : list byte)
  (compressed_size : Z) (w : world) : loop_state :=
  LoopState (to_uLongf (to_size_t (compressed_size + compressed_size))) 0 None
    (store z (Stream (set_input zs compressed (to_uInt compressed_size))) w).

Definition decompress_switch (fuel : nat) (h : loc) (compressed : list byte)
  (compressed_size : Z) (plain : option loc) (max_record_size : Z) (w : world)
  : option switch_exit :=
  match heap w !! h with
  | Some (comp_hd_t_STRUCT MHD_GNUTLS_COMP_DEFLATE zhandle) =>
      match zhandle, stream_at zhandle w with
      | Some z, Some zs =>
          match inflate_loop fuel z max_record_size
                  (decompress_entry z zs compressed compressed_size w) with
          | None => None
          | Some (PassReturn o) => Some (Return o)
          | Some (PassEnd err zs' st) =>
              if negb (err =? Z_OK)
              then Some (Return (Returned GNUTLS_E_DECOMPRESSION_FAILED None
                                   (gnutls_free (plain_ptr st) (lw st))))
              else Some (Break (to_int (to_uLongf (out_size st - avail_out zs')))
                           (plain_ptr st) (lw st))
          end
      | _, _ => Some (Return Undefined)
      end
  | Some (comp_hd_t_STRUCT _ _) =>
      Some (Return (Returned GNUTLS_E_INTERNAL_ERROR plain w))
  | _ => Some (Return Undefined)
  end.

(** [mhd_gtls_decompress]; [None] when the growth loop needs more than
    [fuel] passes. *)
Definition mhd_gtls_decompress (fuel : nat) (handle : option loc)
  (compressed : list byte) (compressed_size : Z) (plain : option loc)
  (max_record_size : Z) (w : world) : option outcome :=
  if compressed_size >? to_size_t (max_record_size + EXTRA_COMP_SIZE)
  then Some (Returned GNUTLS_E_DECOMPRESSION_FAILED plain w)
  else
    match handle with
    | None => Some (Returned GNUTLS_E_INTERNAL_ERROR plain w)
    | Some h =>
        match decompress_switch fuel h compressed compressed_size plain
                max_record_size w with
        | None => None
        | Some (Return o) => Some o
        | Some (Break plain_size out w') =>
            if to_size_t plain_size >? max_record_size
            then Some (Returned GNUTLS_E_DECOMPRESSION_FAILED None
                         (gnutls_free out w'))
            else Some (Returned plain_size out w')
        end
    end.

End Adapter.

Arguments Return {engine_state} o.
Arguments Break {engine_state} size out w.
Arguments PassReturn {engine_state} o.
Arguments PassEnd {engine_state} err zs st.
Arguments LoopState {engine_state}.

(** ** Concrete collaborators

    Engines and constants on which the operations can be run. *)

(** Moves up to [chunk] bytes from the input cursor to the output cursor. *)
Definition moved (chunk : Z) (zs : z_stream unit) : Z :=
  Z.max 0 (Z.min chunk (Z.min (avail_in zs) (avail_out zs))).

Definition move_bytes (chunk : Z) (zs : z_stream unit) : z_stream unit * list byte :=
  let n := moved chunk zs in
  (ZStream (drop (Z.to_nat n) (next_in zs)) (avail_in zs - n)
     (next_out zs) (avail_out zs - n) (zalloc zs) (zfree zs) (opaque zs) (state zs),
   take (Z.to_nat n) (next_in zs)).

(** A stored-data engine: a transform call copies at most [chunk] bytes.
    Compressing reports [Z_OK] when it moved data or had no input left,
    decompressing reports [Z_OK] when it moved data; otherwise the status is
    [Z_BUF_ERROR] (no progress was possible). *)
Definition stored_engine (chunk : Z) : Zlib unit := {|
  deflateInit2 zs _ _ _ _ _ := (Z_OK, zs);
  inflateInit2 zs _ := (Z_OK, zs);
  deflate zs _ :=
    let '(zs', bs) := move_bytes chunk zs in
    (if (0 <? moved chunk zs) || (avail_in zs =? 0) then Z_OK else Z_BUF_ERROR, zs', bs);
  inflate zs _ :=
    let '(zs', bs) := move_bytes chunk zs in
    (if 0 <? moved chunk zs then Z_OK else Z_BUF_ERROR, zs', bs);
  deflateEnd zs := (Z_OK, zs);
  inflateEnd zs := (Z_OK, zs)
|}.


(** An engine whose transform calls report [Z_OK] and do nothing. *)
Definition idle_engine : Zlib unit := {|
  deflateInit2 zs _ _ _ _ _ := (Z_OK, zs);
  inflateInit2 zs _ := (Z_OK, zs);
  deflate zs _ := (Z_OK, zs, []);
  inflate zs _ := (Z_OK, zs, []);
  deflateEnd zs := (Z_OK, zs);
  inflateEnd zs := (Z_OK, zs)
|}.

(** The constants of GnuTLS 2.x. *)
Definition gnutls_constants : Gnutls := {|
  EXTRA_COMP_SIZE := 2048;
  GNUTLS_E_MEMORY_ERROR := -25;
  GNUTLS_E_DECOMPRESSION_FAILED := -26;
  GNUTLS_E_COMPRESSION_FAILED := -27;
  GNUTLS_E_INTERNAL_ERROR := -59;
  mhd_gtls_compression_get_wbits _ := 15;
  mhd_gtls_compression_get_mem_level _ := 8;
  mhd_gtls_compression_get_comp_level _ := 3
|}.

Definition empty_world : world unit := World ∅ [] 0 0 [].

(** A world holding one deflate handle, at location 1, made by
    [mhd_gtls_comp_init] with the engine [e], for direction [d]. *)
Definition world_with_handle (e : Zlib unit) (d : Z) : world unit :=
  snd (@mhd_gtls_comp_init unit e gnutls_constants MHD_GNUTLS_COMP_DEFLATE d empty_world).

(** A run-length engine with private data, in the manner of zlib.  The Init
    operations set up the [state] field: the direction of the stream
    ([true] for a decompressing one) and the number of bytes it still owes.
    The End operation of the same direction clears the field, and every
    operation refuses a stream of the other direction with
    [Z_STREAM_ERROR], leaving it as it is.  Decompressing, an input byte
    stands for [run] zero bytes: the engine takes the input at once, writes
    what fits into the output space, and reports [Z_BUF_ERROR] as long as it
    owes output.  Compressing, it copies what fits. *)
Definition with_state (zs : z_stream (bool * Z)) (s : option (bool * Z))
  : z_stream (bool * Z) :=
  ZStream (next_in zs) (avail_in zs) (next_out zs) (avail_out zs)
    (zalloc zs) (zfree zs) (opaque zs) s.

Definition run_engine (run : Z) : Zlib (bool * Z) := {|
  deflateInit2 zs _ _ _ _ _ := (Z_OK, with_state zs (Some (false, 0)));
  inflateInit2 zs _ := (Z_OK, with_state zs (Some (true, 0)));
  deflate zs _ :=
    match state zs with
    | Some (false, _) =>
        let n := Z.max 0 (Z.min (avail_in zs) (avail_out zs)) in
        (Z_OK,
         ZStream (drop (Z.to_nat n) (next_in zs)) (avail_in zs - n)
           (next_out zs) (avail_out zs - n) (zalloc zs) (zfree zs) (opaque zs)
           (state zs),
         take (Z.to_nat n) (next_in zs))
    | _ => (Z_STREAM_ERROR, zs, [])
    end;
  inflate zs _ :=
    match state zs with
    | Some (true, owed) =>
        let total := owed + run * Z.max 0 (avail_in zs) in
        let n := Z.max 0 (Z.min total (avail_out zs)) in
        (if 0 <? total - n then Z_BUF_ERROR else Z_OK,
         ZStream [] 0 (next_out zs) (avail_out zs - n) (zalloc zs) (zfree zs)
           (opaque zs) (Some (true, total - n)),
         replicate (Z.to_nat n) x00)
    | _ => (Z_STREAM_ERROR, zs, [])
    end;
  deflateEnd zs :=
    match state zs with
    | Some (false, _) => (Z_OK, with_state zs None)
    | _ => (Z_STREAM_ERROR, zs)
    end;
  inflateEnd zs :=
    match state zs with
    | Some (true, _) => (Z_OK, with_state zs None)
    | _ => (Z_STREAM_ERROR, zs)
    end
|}.

(** A world holding one deflate handle of the run-length engine, at
    location 1, made by [mhd_gtls_comp_init] for direction [d]. *)
Definition run_world (run d : Z) : world (bool * Z) :=
  snd (@mhd_gtls_comp_init (bool * Z) (run_engine run) gnutls_constants
         MHD_GNUTLS_COMP_DEFLATE d (World ∅ [] 0 0 [])).

(** ** Predicates used in the statements *)

(** Every error code is a negative [int], so that a caller tells a failure
    from a length by the sign. *)
Definition error_codes_negative `{!Gnutls} : Prop :=
  GNUTLS_E_MEMORY_ERROR < 0 /\ GNUTLS_E_DECOMPRESSION_FAILED < 0 /\
  GNUTLS_E_COMPRESSION_FAILED < 0 /\ GNUTLS_E_INTERNAL_ERROR < 0.

(** A transform call never hands back more output space than it was given
    ([avail_out] is a [uInt] that only goes down). *)
Definition keeps_output_space {engine_state : Type}
  (transform : z_stream engine_state -> Z -> Z * z_stream engine_state * list byte)
  : Prop :=
  forall zs flush,
    0 <= avail_out zs -> 0 <= avail_out (transform zs flush).1.2 <= avail_out zs.

(** [h] is a live handle of the deflate algorithm whose engine stream, at
    [z], currently is [zs]. *)
Definition deflate_handle {engine_state : Type} (h z : loc)
  (zs : z_stream engine_state) (w : world engine_state) : Prop :=
  heap w !! h = Some (comp_hd_t_STRUCT MHD_GNUTLS_COMP_DEFLATE (Some z)) /\
  heap w !! z = Some (Stream zs).

(** The next request to the allocator is granted. *)
Definition allocation_succeeds {engine_state : Type} (w : world engine_state) : Prop :=
  head (alloc_script w) <> Some false.

(** The decompressing engine cannot report [Z_OK] with input left for ever:
    a natural number attached to the stream, which the adapter's settings of
    the output cursor do not change, goes down at each such report and does
    not go up when the engine reports [Z_BUF_ERROR]. *)
Definition makes_progress {engine_state : Type}
  (transform : z_stream engine_state -> Z -> Z * z_stream engine_state * list byte)
  (measure : z_stream engine_state -> nat) : Prop :=
  (forall zs p n, measure (set_output zs p n) = measure zs) /\
  (forall zs flush,
      let '(err, zs', _) := transform zs flush in
      (err = Z_OK -> avail_in zs' <> 0 -> (measure zs' < measure zs)%nat) /\
      (err = Z_BUF_ERROR -> (measure zs' <= measure zs)%nat)).

(** What the growth loop keeps true of memory, relative to the world [w0]
    the call started in: the engine stream stays live, no allocation has
    failed, and the only block that was not live in [w0] is the output
    buffer. *)
Definition loop_invariant {engine_state : Type} (w0 : world engine_state)
  (zhandle : loc) (plain_ptr : option loc) (w : world engine_state) : Prop :=
  (zhandle ∈ dom (heap w0)) /\
  alloc_failures w = alloc_failures w0 /\
  match plain_ptr with
  | None => dom (heap w) = dom (heap w0)
  | Some p => (p ∉ dom (heap w0)) /\ dom (heap w) = {[p]} ∪ dom (heap w0)
  end.



(** The engine call [mhd_gtls_comp_init] makes for the deflate algorithm:
    [deflateInit2] for the compress direction ([d = 0]), [inflateInit2] for
    the decompress direction, on a stream whose allocator fields are zero. *)
Definition init_engine_call {engine_state : Type} `{!Zlib engine_state} `{!Gnutls}
  (d : Z) : Z * z_stream engine_state :=
  if d =? 0
  then deflateInit2 (set_allocators blank_stream 0 0 0)
         (mhd_gtls_compression_get_comp_level MHD_GNUTLS_COMP_DEFLATE) Z_DEFLATED
         (mhd_gtls_compression_get_wbits MHD_GNUTLS_COMP_DEFLATE)
         (mhd_gtls_compression_get_mem_level MHD_GNUTLS_COMP_DEFLATE)
         Z_DEFAULT_STRATEGY
  else inflateInit2 (set_allocators blank_stream 0 0 0)
         (mhd_gtls_compression_get_wbits MHD_GNUTLS_COMP_DEFLATE).

(** [nth_pass zhandle max st0 n err zs st]: the [n]-th pass of the growth
    loop started in [st0] ended with status [err], stream [zs] and variables
    [st]. *)
Inductive nth_pass {engine_state : Type} `{!Zlib engine_state} `{!Gnutls}
  (zhandle : loc) (max_record_size : Z) (st0 : loop_state)
  : nat -> Z -> z_stream engine_state -> loop_state -> Prop :=
| nth_pass_first err zs st :
    inflate_pass zhandle st0 = PassEnd err zs st ->
    nth_pass zhandle max_record_size st0 1 err zs st
| nth_pass_next n err zs st err' zs' st' :
    nth_pass zhandle max_record_size st0 n err zs st ->
    loop_continues max_record_size err zs st = true ->
    inflate_pass zhandle st = PassEnd err' zs' st' ->
    nth_pass zhandle max_record_size st0 (S n) err' zs' st'.

(** [pass_begins zhandle max st0 n st]: the growth loop started in [st0]
    begins its pass number [n + 1] with the variables [st]: it is the first
    pass, or pass [n] ended in a way that makes the loop go round again. *)
Definition pass_begins {engine_state : Type} `{!Zlib engine_state} `{!Gnutls}
  (zhandle : loc) (max_record_size : Z) (st0 : loop_state) (n : nat)
  (st : @loop_state engine_state) : Prop :=
  (n = 0%nat /\ st = st0) \/
  exists err zs,
    nth_pass zhandle max_record_size st0 n err zs st /\
    loop_continues max_record_size err zs st = true.

(** The End operation [mhd_gtls_comp_deinit] calls for the direction [d]. *)
Definition end_engine_call {engine_state : Type} `{!Zlib engine_state}
  (d : Z) (zs : z_stream engine_state) : Z * z_stream engine_state :=
  if d =? 0 then deflateEnd zs else inflateEnd zs.

(** A transform call writes no more bytes than the output space it was
    given. *)
Definition writes_within_output {engine_state : Type}
  (transform : z_stream engine_state -> Z -> Z * z_stream engine_state * list byte)
  : Prop :=
  forall zs flush,
    0 <= avail_out zs -> Z.of_nat (length (transform zs flush).2) <= avail_out zs.


(** Nothing that was live in [w] has changed in [w'], the object at [z]
    apart. *)
Definition untouched_except {engine_state : Type} (z : loc)
  (w w' : world engine_state) : Prop :=
  forall l, l ∈ dom (heap w) -> l <> z -> heap w' !! l = heap w !! l.

(** The output cursor of the growth loop lies inside the buffer grown so
    far, and that buffer is no longer than [out_size]. *)
Definition cursor_in_buffer {engine_state : Type}
  (st : @loop_state engine_state) : Prop :=
  0 <= cur_pos st <= Z.of_nat (length (buffer_at (plain_ptr st) (lw st))) /\
  Z.of_nat (length (buffer_at (plain_ptr st) (lw st))) <= out_size st.


(** ** Facts about the integer conversions *)

Lemma to_size_t_le (z : Z) : 0 <= z -> to_size_t z <= z.
Proof. intros Hz. unfold to_size_t, size_t_bits. apply Z.mod_le; lia. Qed.

Lemma to_size_t_range (z : Z) : 0 <= to_size_t z < 2 ^ 64.
Proof. unfold to_size_t, size_t_bits. apply Z.mod_pos_bound. lia. Qed.

Lemma to_size_t_id (z : Z) : 0 <= z < 2 ^ 64 -> to_size_t z = z.
Proof. intros Hz. unfold to_size_t, size_t_bits. apply Z.mod_small. lia. Qed.

Lemma to_uLongf_le (z : Z) : 0 <= z -> to_uLongf z <= z.
Proof. apply to_size_t_le. Qed.

Lemma to_uLongf_range (z : Z) : 0 <= to_uLongf z < 2 ^ 64.
Proof. apply to_size_t_range. Qed.

Lemma to_uInt_range (z : Z) : 0 <= to_uInt z < 2 ^ 32.
Proof. unfold to_uInt, uInt_bits. apply Z.mod_pos_bound. lia. Qed.

Lemma to_uInt_le (z : Z) : 0 <= z -> to_uInt z <= z.
Proof. intros Hz. unfold to_uInt, uInt_bits. apply Z.mod_le; lia. Qed.

Lemma to_int_range (z : Z) : - 2 ^ 31 <= to_int z < 2 ^ 31.
Proof.
  unfold to_int. pose proof (Z.mod_pos_bound (z + 2 ^ 31) (2 ^ 32)). lia.
Qed.

Lemma to_int_id (z : Z) : - 2 ^ 31 <= z < 2 ^ 31 -> to_int z = z.
Proof. intros Hz. unfold to_int. rewrite Z.mod_small; lia. Qed.

(** A non-negative [int] keeps its value when cast to [size_t]. *)
Lemma to_size_t_of_int (z : Z) : 0 <= to_int z -> to_size_t (to_int z) = to_int z.
Proof.
  intros Hz. apply to_size_t_id. pose proof (to_int_range z). lia.
Qed.

(** The low 32 bits of a 64-bit difference: what [int x = a - b] keeps when
    [b] does not exceed the low 32 bits of [a]. *)
Lemma to_int_sub_low (a b : Z) :
  0 <= a < 2 ^ 64 -> 0 <= b <= to_uInt a -> 0 <= to_int (to_uLongf (a - b)) ->
  to_int (to_uLongf (a - b)) <= to_uInt a.
Proof.
  unfold to_int, to_uLongf, to_uInt, size_t_bits, uInt_bits. intros Ha Hb Hr.
  pose proof (Z.mod_le a (2 ^ 32) ltac:(lia) ltac:(lia)) as Hle.
  pose proof (Z.mod_pos_bound a (2 ^ 32) ltac:(lia)) as Hra.
  rewrite (Z.mod_small (a - b) (2 ^ 64)) in * by lia.
  pose proof (Z.div_mod a (2 ^ 32) ltac:(lia)) as Hdm.
  set (q := a / 2 ^ 32) in *. set (r := a mod 2 ^ 32) in *.
  assert (Heq : (a - b + 2 ^ 31) mod 2 ^ 32 = (r - b + 2 ^ 31) mod 2 ^ 32).
  { replace (a - b + 2 ^ 31) with (r - b + 2 ^ 31 + q * 2 ^ 32) by lia.
    apply Z_mod_plus_full. }
  rewrite Heq in *.
  destruct (Z_lt_le_dec (r - b + 2 ^ 31) (2 ^ 32)) as [Hlt | Hge].
  - rewrite Z.mod_small by lia. lia.
  - exfalso.
    replace (r - b + 2 ^ 31) with (r - b - 2 ^ 31 + 1 * 2 ^ 32) in Hr by lia.
    rewrite Z_mod_plus_full in Hr. rewrite Z.mod_small in Hr by lia. lia.
Qed.

(** ** Properties of the operations *)

Section Properties.
Context {engine_state : Type} `{!Zlib engine_state} `{!Gnutls}.

Abbreviation z_stream' := (z_stream engine_state).
Abbreviation world' := (world engine_state).
Abbreviation outcome' := (outcome engine_state).

(** *** The post-checks *)


(** A pass returns from inside the loop only when the growth step failed
    (or the engine handle dangles). *)
Lemma inflate_pass_return zhandle st (o : outcome') :
  inflate_pass zhandle st = PassReturn o ->
  o = Undefined \/
  exists w1, o = Returned GNUTLS_E_MEMORY_ERROR None w1 /\
    mhd_gtls_realloc_fast (plain_ptr st) (to_uLongf (out_size st + 512)) (lw st)
      = (None, w1).
Proof.
  unfold inflate_pass. intros Hp.
  repeat case_match; simplify_eq; eauto.
Qed.

Lemma inflate_loop_return fuel zhandle max_record_size st (o : outcome') :
  inflate_loop fuel zhandle max_record_size st = Some (PassReturn o) ->
  o = Undefined \/ exists w1, o = Returned GNUTLS_E_MEMORY_ERROR None w1.
Proof.
  revert st. induction fuel as [| fuel IH]; intros st Hl; simpl in Hl; [done |].
  destruct (inflate_pass zhandle st) as [o' | err zs st'] eqn:Hp.
  - simplify_eq. destruct (inflate_pass_return _ _ _ Hp) as [-> | (w1 & -> & _)]; eauto.
  - destruct (loop_continues max_record_size err zs st'); [eauto | done].
Qed.



(** *** The allocator *)

Lemma gnutls_malloc_cases (o : object engine_state) (w : world') p w1 :
  gnutls_malloc o w = (p, w1) ->
  (p = None /\ heap w1 = heap w /\ alloc_failures w1 = S (alloc_failures w) /\
   transforms w1 = transforms w) \/
  (p = Some (fresh (dom (heap w))) /\ allocation_succeeds w /\
   heap w1 = <[fresh (dom (heap w)) := o]> (heap w) /\
   alloc_failures w1 = alloc_failures w /\ transforms w1 = transforms w).
Proof.
  unfold gnutls_malloc, allocation_succeeds. intros Hm.
  destruct (alloc_script w) as [| [] s]; simplify_eq; simpl; eauto 10.
Qed.

Lemma fresh_not_live (w : world') : heap w !! fresh (dom (heap w)) = None.
Proof. apply not_elem_of_dom, is_fresh. Qed.

Lemma realloc_fast_cases p size (w : world') q w1 :
  mhd_gtls_realloc_fast p size w = (q, w1) ->
  (q = None /\ heap w1 = heap (gnutls_free p w) /\
   alloc_failures w1 = S (alloc_failures w) /\ transforms w1 = transforms w) \/
  (exists l, q = Some l /\
     l = match p with Some l => l | None => fresh (dom (heap w)) end /\
     heap w1 = <[l := Buffer (resize (Z.to_nat size) x00 (buffer_at p w))]> (heap w) /\
     alloc_failures w1 = alloc_failures w /\ transforms w1 = transforms w).
Proof.
  unfold mhd_gtls_realloc_fast. intros Hm.
  destruct (alloc_script w) as [| [] s]; simplify_eq; simpl; eauto 10.
Qed.

Lemma store_bytes_dom dst bs (h : gmap loc (object engine_state)) :
  dom (store_bytes dst bs h) = dom h.
Proof.
  unfold store_bytes. repeat case_match; try done.
  apply dom_insert_lookup_L. eauto.
Qed.

Lemma store_bytes_buffer l off bs d (h : gmap loc (object engine_state)) :
  h !! l = Some (Buffer d) ->
  store_bytes (Some (l, off)) bs h !! l
    = Some (Buffer (list_inserts (Z.to_nat off) bs d)).
Proof. intros Hl. unfold store_bytes. rewrite Hl. apply lookup_insert_eq. Qed.

(** *** One call of [mhd_gtls_compress] on a live deflate handle *)

Lemma compress_switch_run h z zs plain plain_size compressed (w : world')
    err zs2 bs :
  deflate_handle h z zs w -> allocation_succeeds w ->
  deflate (compress_stream zs plain plain_size (fresh (dom (heap w)))
             (compress_capacity plain_size)) Z_SYNC_FLUSH = (err, zs2, bs) ->
  exists w2,
    let p := fresh (dom (heap w)) in
    heap w2 = <[z := Stream zs2]>
                (<[p := Buffer (list_inserts 0 bs
                          (replicate (Z.to_nat (compress_capacity plain_size)) x00))]>
                   (heap w)) /\
    z <> p /\ alloc_failures w2 = alloc_failures w /\
    transforms w2 = S (transforms w) /\
    compress_switch h plain plain_size compressed w
      = if negb (err =? Z_OK) || negb (avail_in zs2 =? 0)
        then Return (Returned GNUTLS_E_COMPRESSION_FAILED None
                       (gnutls_free (Some p) w2))
        else Break (to_int (to_uLongf (compress_capacity plain_size - avail_out zs2)))
               (Some p) w2.
Proof.
  intros [Hh Hz] Halloc Hd. unfold compress_switch. rewrite Hh.
  destruct (gnutls_malloc _ w) as [q w1] eqn:Hm.
  destruct (gnutls_malloc_cases _ _ _ _ Hm)
    as [(_ & _ & Hf & _) | (-> & _ & Hheap & Hf & Ht)].
  { unfold gnutls_malloc, allocation_succeeds in *.
    destruct (alloc_script w) as [| [] s]; simplify_eq; simpl in *; lia. }
  set (p := fresh (dom (heap w))) in *.
  assert (Hzp : z <> p).
  { intros ->. pose proof (fresh_not_live w). subst p. congruence. }
  assert (Hz1 : stream_at (Some z) w1 = Some zs).
  { unfold stream_at. rewrite Hheap, lookup_insert_ne by done. by rewrite Hz. }
  rewrite Hz1, Hd.
  eexists. split; [| split; [done | split; [| split; [| reflexivity]]]].
  - simpl. rewrite Hheap. f_equal.
    unfold compress_stream, set_output. simpl.
    unfold store_bytes. rewrite lookup_insert_eq, insert_insert_eq. done.
  - done.
  - simpl. by rewrite Ht.
Qed.

(** C5, amended. On a live deflate handle, when the output buffer could be
    allocated, [mhd_gtls_compress] makes one engine call and returns a
    non-negative value exactly when that call reports [Z_OK], leaves no
    input unconsumed, and the size computed from the remaining output space
    lies between 0 and the caller's maximum.  When the engine reports
    another status or leaves input unconsumed, the call fails with
    COMPRESSION_FAILED, the buffer is released and the output pointer is
    null. *)
Theorem compress_success_condition h z zs plain plain_size compressed
    max_comp_size (w : world') err zs2 bs :
  error_codes_negative ->
  deflate_handle h z zs w -> allocation_succeeds w ->
  deflate (compress_stream zs plain plain_size (fresh (dom (heap w)))
             (compress_capacity plain_size)) Z_SYNC_FLUSH = (err, zs2, bs) ->
  exists r out w',
    mhd_gtls_compress (Some h) plain plain_size compressed max_comp_size w
      = Returned r out w' /\
    transforms w' = S (transforms w) /\
    (0 <= r <->
     err = Z_OK /\ avail_in zs2 = 0 /\
     0 <= to_int (to_uLongf (compress_capacity plain_size - avail_out zs2))
       <= max_comp_size) /\
    (err <> Z_OK \/ avail_in zs2 <> 0 ->
     r = GNUTLS_E_COMPRESSION_FAILED /\ out = None /\
     heap w' !! fresh (dom (heap w)) = None /\ dom (heap w') = dom (heap w)).
Proof.
  intros (Hmem & Hdec & Hcomp & Hint) Hh Halloc Hd.
  destruct (compress_switch_run h z zs plain plain_size compressed w _ _ _
              Hh Halloc Hd) as (w2 & Hheap & Hzp & Hf & Ht & Hs).
  cbv zeta in *. set (p := fresh (dom (heap w))) in *.
  set (L := to_int (to_uLongf (compress_capacity plain_size - avail_out zs2))) in *.
  unfold mhd_gtls_compress. rewrite Hs.
  assert (Hfree : heap (gnutls_free (Some p) w2) !! p = None /\
                  dom (heap (gnutls_free (Some p) w2)) = dom (heap w)).
  { simpl. rewrite Hheap. split; [apply lookup_delete_eq |].
    rewrite dom_delete_L, !dom_insert_L.
    destruct Hh as [_ Hz]. apply elem_of_dom_2 in Hz.
    pose proof (is_fresh (dom (heap w))) as Hfr. fold p in Hfr. set_solver. }
  destruct (negb (err =? Z_OK) || negb (avail_in zs2 =? 0)) eqn:Hfail.
  - do 3 eexists. split; [reflexivity |]. split; [by simpl |].
    split; [| by intros _].
    split; [lia |]. intros (-> & Hin & _). rewrite Hin in Hfail. done.
  - apply orb_false_elim in Hfail as [He Hin].
    apply negb_false_iff, Z.eqb_eq in He.
    apply negb_false_iff, Z.eqb_eq in Hin.
    destruct (to_size_t L >? max_comp_size) eqn:Hpost.
    + do 3 eexists. split; [reflexivity |]. split; [by simpl |].
      split; [| intros [? | ?]; done].
      split; [lia |]. intros (_ & _ & HL).
      unfold L in Hpost. rewrite to_size_t_of_int in Hpost by (subst L; lia). lia.
    + do 3 eexists. split; [reflexivity |]. split; [done |].
      split; [| intros [? | ?]; done].
      split; [| lia]. intros HL. repeat split; try done.
      unfold L in Hpost. rewrite to_size_t_of_int in Hpost by (subst L; lia). lia.
Qed.

(** C8, amended. The buffer a successful [mhd_gtls_compress] hands over has
    the capacity [2 * plain_size + 10] reduced modulo [2 ^ 64], the range of
    the size type, hence exactly [2 * plain_size + 10] whenever that value
    is below [2 ^ 64]; and with an engine that never gives back more output
    space than it got, the length returned is at most that capacity, so at
    most [2 * plain_size + 10]. *)
Theorem compress_capacity_and_length h z zs plain plain_size compressed
    max_comp_size (w : world') r out w' :
  error_codes_negative -> keeps_output_space deflate ->
  0 <= plain_size -> deflate_handle h z zs w ->
  mhd_gtls_compress (Some h) plain plain_size compressed max_comp_size w
    = Returned r out w' ->
  0 <= r ->
  out = Some (fresh (dom (heap w))) /\
  length (buffer_at out w') = Z.to_nat (compress_capacity plain_size) /\
  compress_capacity plain_size = (2 * plain_size + 10) mod 2 ^ 64 /\
  (2 * plain_size + 10 < 2 ^ 64 ->
   compress_capacity plain_size = 2 * plain_size + 10) /\
  r <= compress_capacity plain_size <= 2 * plain_size + 10.
Proof.
  intros (Hmem & Hdec & Hcomp & Hint) Hkeep Hn Hh Hc Hr.
  assert (Hcap : compress_capacity plain_size = (2 * plain_size + 10) mod 2 ^ 64).
  { unfold compress_capacity, to_uLongf, to_size_t, size_t_bits.
    rewrite Zplus_mod_idemp_l. f_equal. lia. }
  assert (Hcap_le : compress_capacity plain_size <= 2 * plain_size + 10).
  { rewrite Hcap. apply Z.mod_le; lia. }
  assert (Hcap_range : 0 <= compress_capacity plain_size < 2 ^ 64).
  { rewrite Hcap. apply Z.mod_pos_bound. lia. }
  unfold mhd_gtls_compress in Hc.
  destruct (gnutls_malloc (Buffer (replicate (Z.to_nat (compress_capacity plain_size)) x00)) w)
    as [q w1] eqn:Hm.
  destruct (gnutls_malloc_cases _ _ _ _ Hm) as [(-> & _) | (-> & Halloc & _)].
  { unfold compress_switch in Hc. destruct Hh as [Hh _]. rewrite Hh, Hm in Hc.
    simplify_eq. lia. }
  destruct (deflate (compress_stream zs plain plain_size (fresh (dom (heap w)))
                       (compress_capacity plain_size)) Z_SYNC_FLUSH)
    as [[err zs2] bs] eqn:Hd.
  destruct (compress_switch_run h z zs plain plain_size compressed w _ _ _
              Hh Halloc Hd) as (w2 & Hheap & Hzp & Hf & Ht & Hs).
  cbv zeta in *. set (p := fresh (dom (heap w))) in *.
  rewrite Hs in Hc.
  destruct (negb (err =? Z_OK) || negb (avail_in zs2 =? 0)); [simplify_eq; lia |].
  destruct (to_size_t _ >? max_comp_size); simplify_eq; [lia |].
  split; [done |]. split.
  { unfold buffer_at. rewrite Hheap, lookup_insert_ne, lookup_insert_eq by done.
    by rewrite length_inserts, length_replicate. }
  split; [done |]. split; [intros Hlt; rewrite Hcap; apply Z.mod_small; lia |].
  split; [| done].
  pose proof (Hkeep (compress_stream zs plain plain_size p
                       (compress_capacity plain_size)) Z_SYNC_FLUSH) as Hk.
  rewrite Hd in Hk. simpl in Hk.
  specialize (Hk ltac:(pose proof (to_uInt_range (compress_capacity plain_size)); lia)).
  pose proof (to_int_sub_low (compress_capacity plain_size) (avail_out zs2)
                Hcap_range Hk Hr).
  pose proof (to_uInt_le (compress_capacity plain_size)). lia.
Qed.

(** *** The upfront size check of [mhd_gtls_decompress] *)

Lemma size_check_fires compressed_size max_record_size :
  0 <= max_record_size -> 0 <= EXTRA_COMP_SIZE ->
  max_record_size + EXTRA_COMP_SIZE < compressed_size ->
  (compressed_size >? to_size_t (max_record_size + EXTRA_COMP_SIZE)) = true.
Proof.
  intros Hm He Hgt.
  pose proof (to_size_t_le (max_record_size + EXTRA_COMP_SIZE)). lia.
Qed.

(** C3. Bomb rejection: when the compressed length is strictly greater than
    the maximum plus [EXTRA_COMP_SIZE], [mhd_gtls_decompress] fails with
    DECOMPRESSION_FAILED for every handle; the world it leaves is the world
    it was given, so no engine transform ran, the stream of the handle is
    as it was, and the caller's pointer was not written. *)
Theorem bomb_rejection fuel handle compressed compressed_size plain
    max_record_size (w : world') :
  0 <= max_record_size -> 0 <= EXTRA_COMP_SIZE ->
  max_record_size + EXTRA_COMP_SIZE < compressed_size ->
  mhd_gtls_decompress fuel handle compressed compressed_size plain
    max_record_size w
    = Some (Returned GNUTLS_E_DECOMPRESSION_FAILED plain w) /\
  (forall r out w',
      mhd_gtls_decompress fuel handle compressed compressed_size plain
        max_record_size w = Some (Returned r out w') ->
      transforms w' = transforms w /\ heap w' = heap w /\
      forall zhandle, stream_at zhandle w' = stream_at zhandle w).
Proof.
  intros Hm He Hgt.
  assert (Hcall : mhd_gtls_decompress fuel handle compressed compressed_size plain
            max_record_size w
          = Some (Returned GNUTLS_E_DECOMPRESSION_FAILED plain w)).
  { unfold mhd_gtls_decompress. by rewrite size_check_fires. }
  split; [done |]. intros r out w' Hc. rewrite Hcall in Hc. by simplify_eq.
Qed.

(** C10. The size check comes before the handle check: with a null handle
    an oversized input gives DECOMPRESSION_FAILED, the null handle is
    answered with INTERNAL_ERROR only when the input is within the size
    bound, and it is so answered whenever the input passes the check. *)
Theorem size_check_precedes_handle_check fuel compressed compressed_size plain
    max_record_size (w : world') :
  0 <= max_record_size -> 0 <= EXTRA_COMP_SIZE ->
  GNUTLS_E_DECOMPRESSION_FAILED <> GNUTLS_E_INTERNAL_ERROR ->
  (max_record_size + EXTRA_COMP_SIZE < compressed_size ->
   mhd_gtls_decompress fuel None compressed compressed_size plain
     max_record_size w
     = Some (Returned GNUTLS_E_DECOMPRESSION_FAILED plain w)) /\
  (forall out w',
     mhd_gtls_decompress fuel None compressed compressed_size plain
       max_record_size w
       = Some (Returned GNUTLS_E_INTERNAL_ERROR out w') ->
     compressed_size <= max_record_size + EXTRA_COMP_SIZE) /\
  (compressed_size <= to_size_t (max_record_size + EXTRA_COMP_SIZE) ->
   mhd_gtls_decompress fuel None compressed compressed_size plain
     max_record_size w
     = Some (Returned GNUTLS_E_INTERNAL_ERROR plain w)).
Proof.
  intros Hm He Hne. repeat split.
  - intros Hgt. unfold mhd_gtls_decompress. by rewrite size_check_fires.
  - intros out w' Hc.
    destruct (Z_lt_le_dec (max_record_size + EXTRA_COMP_SIZE) compressed_size)
      as [Hgt | Hle]; [| done].
    unfold mhd_gtls_decompress in Hc. rewrite size_check_fires in Hc by done.
    by simplify_eq.
  - intros Hle. unfold mhd_gtls_decompress.
    destruct (compressed_size >? _) eqn:Hgt; [lia | done].
Qed.

(** *** One pass of the growth loop *)

Lemma inflate_pass_end zhandle st err zs (st' : loop_state) :
  inflate_pass zhandle st = PassEnd err zs st' ->
  exists p w1 zs0 bs,
    mhd_gtls_realloc_fast (plain_ptr st) (to_uLongf (out_size st + 512)) (lw st)
      = (Some p, w1) /\
    stream_at (Some zhandle) w1 = Some zs0 /\
    inflate (set_output zs0 (Some (p, cur_pos st))
               (to_uInt (to_uLongf (to_uLongf (out_size st + 512) - cur_pos st))))
      Z_SYNC_FLUSH = (err, zs, bs) /\
    st' = LoopState (to_uLongf (out_size st + 512))
            (to_int (to_uLongf (to_uLongf (out_size st + 512) - avail_out zs)))
            (Some p)
            (engine_effect zhandle (Some (p, cur_pos st)) zs bs w1).
Proof.
  unfold inflate_pass. intros Hp.
  destruct (mhd_gtls_realloc_fast _ _ _) as [[p |] w1]; [| done].
  destruct (stream_at (Some zhandle) w1) as [zs0 |] eqn:Hz; [| done].
  destruct (inflate _ _) as [[e zs2] bs] eqn:Hi. simplify_eq.
  exists p, w1, zs0, bs. by rewrite Hi.
Qed.

(** What a completed pass leaves in memory. *)
Lemma inflate_pass_memory zhandle st err zs (st' : loop_state) :
  inflate_pass zhandle st = PassEnd err zs st' ->
  exists p d zs0,
    p = match plain_ptr st with
        | Some l => l
        | None => fresh (dom (heap (lw st)))
        end /\
    p <> zhandle /\
    out_size st' = to_uLongf (out_size st + 512) /\
    plain_ptr st' = Some p /\
    heap (lw st) !! zhandle = Some (Stream zs0) /\
    inflate (set_output zs0 (Some (p, cur_pos st))
               (to_uInt (to_uLongf (out_size st' - cur_pos st))))
      Z_SYNC_FLUSH = (err, zs, d.2) /\
    heap (lw st') !! p = Some (Buffer d.1) /\
    length d.1 = Z.to_nat (out_size st') /\
    heap (lw st') !! zhandle = Some (Stream zs) /\
    dom (heap (lw st')) = {[p]} ∪ dom (heap (lw st)) /\
    alloc_script (lw st') = tail (alloc_script (lw st)) /\
    alloc_failures (lw st') = alloc_failures (lw st) /\
    transforms (lw st') = S (transforms (lw st)) /\
    cur_pos st' = to_int (to_uLongf (out_size st' - avail_out zs)) /\
    d.1 = list_inserts (Z.to_nat (cur_pos st)) d.2
            (resize (Z.to_nat (out_size st')) x00 (buffer_at (plain_ptr st) (lw st))).
Proof.
  intros Hp. destruct (inflate_pass_end _ _ _ _ _ Hp)
    as (p & w1 & zs0 & bs & Hr & Hz & Hi & ->).
  destruct (realloc_fast_cases _ _ _ _ _ Hr)
    as [(? & _) | (l & ? & Hl & Hheap & Hf & Ht)]; simplify_eq.
  set (p := match plain_ptr st with
            | Some l => l
            | None => fresh (dom (heap (lw st)))
            end) in *.
  set (d := resize (Z.to_nat (to_uLongf (out_size st + 512))) x00
              (buffer_at (plain_ptr st) (lw st))) in *.
  assert (Hpz : p <> zhandle).
  { intros Heq. unfold stream_at in Hz. rewrite Hheap, Heq, lookup_insert_eq in Hz.
    done. }
  assert (Hz0 : heap (lw st) !! zhandle = Some (Stream zs0)).
  { unfold stream_at in Hz. rewrite Hheap, lookup_insert_ne in Hz by done.
    by repeat case_match; simplify_eq. }
  exists p, (list_inserts (Z.to_nat (cur_pos st)) bs d, bs), zs0. simpl.
  split; [done |]. split; [done |]. split; [done |]. split; [done |].
  split; [done |]. split; [done |].
  assert (Hbuf : store_bytes (Some (p, cur_pos st)) bs (heap w1) !! p
                 = Some (Buffer (list_inserts (Z.to_nat (cur_pos st)) bs d))).
  { apply store_bytes_buffer. rewrite Hheap. apply lookup_insert_eq. }
  split; [by rewrite lookup_insert_ne |].
  split; [by unfold d; rewrite length_inserts, length_resize |].
  split; [apply lookup_insert_eq |].
  split.
  { rewrite dom_insert_L, store_bytes_dom, Hheap, dom_insert_L.
    apply elem_of_dom_2 in Hz0. set_solver. }
  split; [| simpl; by rewrite Hf, Ht].
  unfold mhd_gtls_realloc_fast in Hr.
  destruct (alloc_script (lw st)) as [| [] s]; by simplify_eq.
Qed.

(** Writing [bs] behind the [W] already written extends the written prefix. *)
Lemma written_prefix (W bs d : list byte) :
  take (length W) d = W -> (length W + length bs <= length d)%nat ->
  take (length W + length bs) (list_inserts (length W) bs d) = W ++ bs.
Proof.
  intros HW Hlen.
  rewrite <- (take_drop (length W) d), HW.
  assert (Hd2 : (length bs <= length (drop (length W) d))%nat)
    by (rewrite length_drop; lia).
  rewrite <- (take_drop (length bs) (drop (length W) d)).
  rewrite <- (Nat.add_0_r (length W)) at 2.
  rewrite list_inserts_app_r, list_inserts_0_r by (rewrite length_take; lia).
  rewrite app_assoc, take_app_length'; [done |]. by rewrite length_app.
Qed.

(** What a pass that returns from inside the loop leaves in memory. *)
Lemma inflate_pass_failure zhandle st r out (w1 : world') :
  inflate_pass zhandle st = PassReturn (Returned r out w1) ->
  r = GNUTLS_E_MEMORY_ERROR /\ out = None /\
  heap w1 = heap (gnutls_free (plain_ptr st) (lw st)) /\
  alloc_failures w1 = S (alloc_failures (lw st)) /\
  transforms w1 = transforms (lw st).
Proof.
  intros Hp. destruct (inflate_pass_return _ _ _ Hp) as [? | (w2 & ? & Hr)];
    simplify_eq.
  destruct (realloc_fast_cases _ _ _ _ _ Hr)
    as [(_ & ? & ? & ?) | (l & ? & _)]; by simplify_eq.
Qed.

(** *** The memory invariant of the growth loop *)

Lemma loop_invariant_pass (w0 : world') zhandle st err zs st' :
  loop_invariant w0 zhandle (plain_ptr st) (lw st) ->
  inflate_pass zhandle st = PassEnd err zs st' ->
  loop_invariant w0 zhandle (plain_ptr st') (lw st').
Proof.
  intros (Hz & Hf & Hdom) Hp.
  destruct (inflate_pass_memory _ _ _ _ _ Hp)
    as (p & d & zs0 & Hpdef & Hpz & _ & Hptr & _ & _ & _ & _ & _ & Hdom' & _ & Hf' & _).
  unfold loop_invariant. rewrite Hptr, Hf', Hf. split; [done |]. split; [done |].
  destruct (plain_ptr st) as [l |].
  - destruct Hdom as [Hl Hdom]. subst p. split; [done |].
    rewrite Hdom', Hdom. set_solver.
  - split; [| by rewrite Hdom', Hdom].
    rewrite <- Hdom, Hpdef. apply is_fresh.
Qed.

Lemma loop_invariant_released (w0 : world') zhandle p w :
  loop_invariant w0 zhandle p w -> dom (heap (gnutls_free p w)) = dom (heap w0).
Proof.
  intros (_ & _ & Hdom). destruct p as [l |]; simpl; [| done].
  destruct Hdom as [Hl Hdom]. rewrite dom_delete_L, Hdom. set_solver.
Qed.

(** However the loop is left, nothing but the output buffer has been added to
    memory, and a return from inside the loop has released that as well. *)
Lemma inflate_loop_memory (w0 : world') fuel zhandle max_record_size st res :
  loop_invariant w0 zhandle (plain_ptr st) (lw st) ->
  inflate_loop fuel zhandle max_record_size st = Some res ->
  match res with
  | PassReturn Undefined => True
  | PassReturn (Returned r out w1) =>
      r = GNUTLS_E_MEMORY_ERROR /\ out = None /\
      dom (heap w1) = dom (heap w0) /\
      alloc_failures w1 = S (alloc_failures w0)
  | PassEnd err zs st' =>
      loop_invariant w0 zhandle (plain_ptr st') (lw st') /\
      loop_continues max_record_size err zs st' = false /\
      exists p d,
        plain_ptr st' = Some p /\ heap (lw st') !! p = Some (Buffer d) /\
        length d = Z.to_nat (out_size st') /\
        heap (lw st') !! zhandle = Some (Stream zs)
  end.
Proof.
  revert st. induction fuel as [| fuel IH]; intros st Hinv Hl; simpl in Hl; [done |].
  destruct (inflate_pass zhandle st) as [o | err zs st'] eqn:Hp.
  - simplify_eq. destruct o as [r out w1 |]; [| done].
    destruct (inflate_pass_failure _ _ _ _ _ Hp) as (-> & -> & Hheap & Hf & _).
    split; [done |]. split; [done |]. split.
    + rewrite Hheap. by eapply loop_invariant_released.
    + destruct Hinv as (_ & Hf0 & _). by rewrite Hf, Hf0.
  - pose proof (loop_invariant_pass _ _ _ _ _ _ Hinv Hp) as Hinv'.
    destruct (loop_continues max_record_size err zs st') eqn:Hcont;
      [by eapply IH |].
    simplify_eq. simpl. split; [done |]. split; [done |].
    destruct (inflate_pass_memory _ _ _ _ _ Hp)
      as (p & d & zs0 & _ & _ & _ & Hptr & _ & _ & Hbuf & Hlen & Hz & _).
    eauto 10.
Qed.

(** *** Allocation failures and failure paths *)

Lemma decompress_entry_invariant z zs compressed compressed_size (w : world') :
  heap w !! z = Some (Stream zs) ->
  loop_invariant w z
    (plain_ptr (decompress_entry z zs compressed compressed_size w))
    (lw (decompress_entry z zs compressed compressed_size w)).
Proof.
  intros Hz. unfold loop_invariant, decompress_entry. simpl.
  split; [by eapply elem_of_dom_2 |]. split; [done |].
  apply dom_insert_lookup_L. eauto.
Qed.

(** How a call of [mhd_gtls_decompress] can end: nothing was touched; or the
    call failed after the switch was entered, the pointer is null and no block
    is live that was not live before; or a size is returned with a live
    buffer, the one block that was added. *)
Lemma decompress_outcomes fuel handle compressed compressed_size plain
    max_record_size (w : world') r out w' :
  mhd_gtls_decompress fuel handle compressed compressed_size plain
    max_record_size w = Some (Returned r out w') ->
  (out = plain /\ w' = w /\
   (r = GNUTLS_E_DECOMPRESSION_FAILED \/ r = GNUTLS_E_INTERNAL_ERROR)) \/
  (out = None /\ dom (heap w') = dom (heap w) /\
   (r = GNUTLS_E_MEMORY_ERROR /\ alloc_failures w' = S (alloc_failures w) \/
    r = GNUTLS_E_DECOMPRESSION_FAILED /\ alloc_failures w' = alloc_failures w)) \/
  (exists p d,
      out = Some p /\ (p ∉ dom (heap w)) /\ heap w' !! p = Some (Buffer d) /\
      dom (heap w') = {[p]} ∪ dom (heap w) /\ to_size_t r <= max_record_size /\
      alloc_failures w' = alloc_failures w).
Proof.
  unfold mhd_gtls_decompress. intros Hc.
  destruct (compressed_size >? _); [simplify_eq; eauto 10 |].
  destruct handle as [h |]; [| simplify_eq; eauto 10].
  unfold decompress_switch in Hc.
  destruct (heap w !! h) as [[algo zhandle | |] |]; try by simplify_eq.
  destruct algo; try (simplify_eq; eauto 10).
  destruct zhandle as [z |]; [| by simplify_eq].
  destruct (stream_at (Some z) w) as [zs |] eqn:Hz; [| by simplify_eq].
  assert (Hz' : heap w !! z = Some (Stream zs)).
  { unfold stream_at in Hz. by repeat case_match; simplify_eq. }
  pose proof (decompress_entry_invariant z zs compressed compressed_size w Hz')
    as Hinv.
  destruct (inflate_loop _ _ _ _) as [res |] eqn:Hl; [| done].
  pose proof (inflate_loop_memory _ _ _ _ _ _ Hinv Hl) as Hmem.
  destruct res as [[r0 out0 w1 |] | err zs' st]; [| done |].
  - simplify_eq. destruct Hmem as (-> & -> & Hdom & Hf). right; left. eauto 10.
  - destruct Hmem as (Hinv' & _ & p & d & Hptr & Hbuf & Hlen & Hzs).
    pose proof (loop_invariant_released _ _ _ _ Hinv') as Hrel.
    destruct Hinv' as (_ & Hf & Hdom). rewrite Hptr in Hdom, Hrel.
    destruct Hdom as [Hp Hdom].
    destruct (negb (err =? Z_OK)).
    { simplify_eq. right; left. rewrite Hptr. eauto 10. }
    destruct (to_size_t _ >? max_record_size) eqn:Hpost; simplify_eq.
    { right; left. rewrite Hptr. eauto 10. }
    right; right. exists p, d. rewrite Hptr. repeat split; try done. lia.
Qed.


Lemma decompress_switch_on_handle fuel h z zs compressed compressed_size plain
    max_record_size (w : world') :
  deflate_handle h z zs w ->
  decompress_switch fuel h compressed compressed_size plain max_record_size w
  = match inflate_loop fuel z max_record_size
            (decompress_entry z zs compressed compressed_size w) with
    | None => None
    | Some (PassReturn o) => Some (Return o)
    | Some (PassEnd err zs' st) =>
        if negb (err =? Z_OK)
        then Some (Return (Returned GNUTLS_E_DECOMPRESSION_FAILED None
                             (gnutls_free (plain_ptr st) (lw st))))
        else Some (Break (to_int (to_uLongf (out_size st - avail_out zs')))
                     (plain_ptr st) (lw st))
    end.
Proof.
  intros [Hh Hz]. unfold decompress_switch, stream_at. by rewrite Hh, Hz.
Qed.

(** C7. When the growth loop of [mhd_gtls_decompress] is left with an engine
    status other than [Z_OK], the call fails with DECOMPRESSION_FAILED, the
    caller's output pointer is null, the output buffer is no longer live and
    the live blocks are those that were live before the call.  And however a
    call ends, the caller is left with one of three things: its own pointer
    and world, untouched (the failures before the switch body); a null
    pointer and no block that was not live before (the failures after it);
    or, with the size that passed the post-check, a pointer to a live buffer,
    the one new block. *)
Theorem decompress_failure_releases_buffer fuel h z zs0 compressed
    compressed_size plain max_record_size (w : world') err zs st :
  deflate_handle h z zs0 w ->
  compressed_size <= to_size_t (max_record_size + EXTRA_COMP_SIZE) ->
  inflate_loop fuel z max_record_size
    (decompress_entry z zs0 compressed compressed_size w)
    = Some (PassEnd err zs st) ->
  err <> Z_OK ->
  (exists p w',
      mhd_gtls_decompress fuel (Some h) compressed compressed_size plain
        max_record_size w
        = Some (Returned GNUTLS_E_DECOMPRESSION_FAILED None w') /\
      plain_ptr st = Some p /\ heap w' !! p = None /\
      dom (heap w') = dom (heap w)) /\
  (forall fuel' handle' compressed' compressed_size' plain' max_record_size'
          (w0 : world') r out w',
      mhd_gtls_decompress fuel' handle' compressed' compressed_size' plain'
        max_record_size' w0 = Some (Returned r out w') ->
      (out = plain' /\ w' = w0 /\
       (r = GNUTLS_E_DECOMPRESSION_FAILED \/ r = GNUTLS_E_INTERNAL_ERROR)) \/
      (out = None /\ dom (heap w') = dom (heap w0) /\
       (r = GNUTLS_E_MEMORY_ERROR \/ r = GNUTLS_E_DECOMPRESSION_FAILED)) \/
      (exists p d,
          out = Some p /\ (p ∉ dom (heap w0)) /\
          heap w' !! p = Some (Buffer d) /\
          dom (heap w') = {[p]} ∪ dom (heap w0) /\
          to_size_t r <= max_record_size')).
Proof.
  intros Hh Hsize Hl Herr. split.
  - pose proof Hh as [_ Hz].
    pose proof (decompress_entry_invariant z zs0 compressed compressed_size w Hz)
      as Hinv.
    pose proof (inflate_loop_memory _ _ _ _ _ _ Hinv Hl) as Hmem. simpl in Hmem.
    destruct Hmem as (Hinv' & _ & p & d & Hptr & _).
    exists p, (gnutls_free (plain_ptr st) (lw st)).
    split; [| split; [done | split]].
    + unfold mhd_gtls_decompress.
      destruct (compressed_size >? _) eqn:Hgt; [lia |].
      rewrite (decompress_switch_on_handle _ _ _ _ _ _ _ _ _ Hh), Hl.
      apply Z.eqb_neq in Herr. by rewrite Herr.
    + rewrite Hptr. simpl. apply lookup_delete_eq.
    + by eapply loop_invariant_released.
  - intros * Hc.
    destruct (decompress_outcomes _ _ _ _ _ _ _ _ _ _ Hc)
      as [? | [(? & ? & [[? _] | [? _]]) | (p & d & ? & ? & ? & ? & ? & _)]];
      eauto 12.
Qed.

(** *** The capacity during the growth loop *)

Lemma pass_reached_last zhandle max_record_size st0 k err zs (st : loop_state) :
  pass_reached zhandle max_record_size st0 k err zs st ->
  exists st1, inflate_pass zhandle st1 = PassEnd err zs st.
Proof. intros Hr. destruct Hr; eauto. Qed.

(** The passes that [pass_reached] describes are those the loop makes. *)
Lemma inflate_loop_from_reached zhandle max_record_size st0 fuel :
  forall k err zs st err' zs' st',
    pass_reached zhandle max_record_size st0 k err zs st ->
    loop_continues max_record_size err zs st = true ->
    inflate_loop fuel zhandle max_record_size st = Some (PassEnd err' zs' st') ->
    exists k', pass_reached zhandle max_record_size st0 k' err' zs' st'.
Proof.
  induction fuel as [| fuel IH]; intros k err zs st err' zs' st' Hr Hcont Hl;
    simpl in Hl; [done |].
  destruct (inflate_pass zhandle st) as [o | err1 zs1 st1] eqn:Hp; [done |].
  assert (Hr1 : exists k1, pass_reached zhandle max_record_size st0 k1 err1 zs1 st1).
  { unfold loop_continues in Hcont. apply orb_true_iff in Hcont as [Hb | Ho].
    - exists k. by eapply pass_after_buf_error.
    - exists (S k). by eapply pass_after_ok. }
  destruct Hr1 as [k1 Hr1].
  destruct (loop_continues max_record_size err1 zs1 st1) eqn:Hcont1.
  - by eapply IH.
  - simplify_eq. eauto.
Qed.

Lemma inflate_loop_reached zhandle max_record_size st0 fuel err zs (st : loop_state) :
  inflate_loop fuel zhandle max_record_size st0 = Some (PassEnd err zs st) ->
  exists k, pass_reached zhandle max_record_size st0 k err zs st.
Proof.
  destruct fuel as [| fuel]; simpl; [done |]. intros Hl.
  destruct (inflate_pass zhandle st0) as [o | err1 zs1 st1] eqn:Hp; [done |].
  pose proof (first_pass zhandle max_record_size st0 _ _ _ Hp) as Hr1.
  destruct (loop_continues max_record_size err1 zs1 st1) eqn:Hcont1.
  - by eapply inflate_loop_from_reached.
  - simplify_eq. eauto.
Qed.

(** After every pass the output buffer has exactly [out_size] bytes. *)
Lemma pass_reached_capacity zhandle max_record_size st0 k err zs (st : loop_state) :
  pass_reached zhandle max_record_size st0 k err zs st ->
  0 <= out_size st < 2 ^ 64 /\
  exists p d,
    plain_ptr st = Some p /\ heap (lw st) !! p = Some (Buffer d) /\
    Z.of_nat (length d) = out_size st.
Proof.
  intros Hr. destruct (pass_reached_last _ _ _ _ _ _ _ Hr) as [st1 Hp].
  destruct (inflate_pass_memory _ _ _ _ _ Hp)
    as (p & d & zs0 & _ & _ & Hout & Hptr & _ & _ & Hbuf & Hlen & _).
  assert (Hrange : 0 <= out_size st < 2 ^ 64).
  { rewrite Hout. apply to_uLongf_range. }
  split; [done |]. exists p, d.1. split; [done |]. split; [done |].
  rewrite Hlen. lia.
Qed.

(** The capacity after [k] continuations on [Z_OK]. *)
Lemma pass_reached_growth zhandle max_record_size st0 k err zs (st : loop_state) :
  0 <= out_size st0 ->
  pass_reached zhandle max_record_size st0 k err zs st ->
  out_size st
  <= Z.max (out_size st0 + 512) (max_record_size + 511) + 512 * Z.of_nat k.
Proof.
  intros H0 Hr. induction Hr as [err zs st Hp
                                | k err zs st err' zs' st' Hr IH Hb Hp
                                | k err zs st err' zs' st' Hr IH Ho Hp].
  - destruct (inflate_pass_memory _ _ _ _ _ Hp)
      as (p & d & zs0 & _ & _ & Hout & _).
    rewrite Hout. pose proof (to_uLongf_le (out_size st0 + 512)). lia.
  - destruct (inflate_pass_memory _ _ _ _ _ Hp)
      as (p & d & zs0 & _ & _ & Hout & _).
    destruct (pass_reached_capacity _ _ _ _ _ _ _ Hr) as [Hrange _].
    unfold continues_on_buf_error in Hb.
    apply andb_true_iff in Hb as [_ Hlt]. apply Z.ltb_lt in Hlt.
    rewrite Hout. pose proof (to_uLongf_le (out_size st + 512)). lia.
  - destruct (inflate_pass_memory _ _ _ _ _ Hp)
      as (p & d & zs0 & _ & _ & Hout & _).
    destruct (pass_reached_capacity _ _ _ _ _ _ _ Hr) as [Hrange _].
    rewrite Hout. pose proof (to_uLongf_le (out_size st + 512)). lia.
Qed.

(** *** The passes, counted *)

Lemma nth_pass_last zhandle max_record_size st0 n err zs (st : loop_state) :
  nth_pass zhandle max_record_size st0 n err zs st ->
  exists st1, inflate_pass zhandle st1 = PassEnd err zs st.
Proof. intros Hn. destruct Hn; eauto. Qed.

(** A pass counted from the second pass on is one pass later counted from
    the first. *)
Lemma nth_pass_shift zhandle max_record_size st0 err1 zs1 st1 n err zs
    (st : loop_state) :
  inflate_pass zhandle st0 = PassEnd err1 zs1 st1 ->
  loop_continues max_record_size err1 zs1 st1 = true ->
  nth_pass zhandle max_record_size st1 n err zs st ->
  nth_pass zhandle max_record_size st0 (S n) err zs st.
Proof.
  intros Hp Hc Hn. induction Hn as [err zs st Hp1 | n err zs st err' zs' st' Hn IH Hc' Hp'].
  - eapply nth_pass_next; [by apply nth_pass_first | done | done].
  - eapply nth_pass_next; [exact IH | done | done].
Qed.

Lemma nth_pass_unshift zhandle max_record_size st0 n err zs (st : loop_state) :
  nth_pass zhandle max_record_size st0 n err zs st ->
  (n = 1%nat /\ inflate_pass zhandle st0 = PassEnd err zs st) \/
  exists err1 zs1 st1 m,
    n = S m /\ inflate_pass zhandle st0 = PassEnd err1 zs1 st1 /\
    loop_continues max_record_size err1 zs1 st1 = true /\
    nth_pass zhandle max_record_size st1 m err zs st.
Proof.
  intros Hn. induction Hn as [err zs st Hp | n err zs st err' zs' st' Hn IH Hc Hp].
  - by left.
  - right. destruct IH as [[-> Hp0] | (err1 & zs1 & st1 & m & -> & Hp0 & Hc0 & Hm)].
    + exists err, zs, st, 1%nat. split; [done |]. split; [done |]. split; [done |].
      by apply nth_pass_first.
    + exists err1, zs1, st1, (S m). split; [done |]. split; [done |]. split; [done |].
      by eapply nth_pass_next.
Qed.

Lemma pass_begins_next zhandle max_record_size st0 n (st : loop_state) err zs st' :
  pass_begins zhandle max_record_size st0 n st ->
  inflate_pass zhandle st = PassEnd err zs st' ->
  nth_pass zhandle max_record_size st0 (S n) err zs st'.
Proof.
  intros [[-> ->] | (err0 & zs0 & Hn & Hc)] Hp.
  - by apply nth_pass_first.
  - by eapply nth_pass_next.
Qed.

Lemma pass_begins_unshift zhandle max_record_size st0 n (st : loop_state) :
  pass_begins zhandle max_record_size st0 (S n) st ->
  exists err1 zs1 st1,
    inflate_pass zhandle st0 = PassEnd err1 zs1 st1 /\
    loop_continues max_record_size err1 zs1 st1 = true /\
    pass_begins zhandle max_record_size st1 n st.
Proof.
  intros [[? _] | (err & zs & Hn & Hc)]; [done |].
  destruct (nth_pass_unshift _ _ _ _ _ _ _ Hn)
    as [[Hn1 Hp] | (err1 & zs1 & st1 & m & Hm & Hp & Hc1 & Hn1)].
  - injection Hn1 as ->. exists err, zs, st. split; [done |]. split; [done |].
    by left.
  - injection Hm as ->. exists err1, zs1, st1. split; [done |]. split; [done |].
    right. eauto.
Qed.

(** The loop is left after the first pass that ends in a way that does not
    make it go round again. *)
Lemma nth_pass_loop zhandle max_record_size n :
  forall st0 err zs (st : loop_state) fuel,
    nth_pass zhandle max_record_size st0 n err zs st ->
    loop_continues max_record_size err zs st = false ->
    (n <= fuel)%nat ->
    inflate_loop fuel zhandle max_record_size st0 = Some (PassEnd err zs st).
Proof.
  induction n as [| n IH]; intros st0 err zs st fuel Hn Hc Hle.
  - destruct (nth_pass_unshift _ _ _ _ _ _ _ Hn) as [[? _] | (? & ? & ? & ? & ? & _)];
      done.
  - destruct fuel as [| fuel]; [lia |]. simpl.
    destruct (nth_pass_unshift _ _ _ _ _ _ _ Hn)
      as [[_ Hp] | (err1 & zs1 & st1 & m & Hm & Hp & Hc1 & Hn1)].
    + by rewrite Hp, Hc.
    + injection Hm as <-. rewrite Hp, Hc1. apply (IH st1); [done | done | lia].
Qed.

Lemma inflate_loop_from_nth zhandle max_record_size st0 fuel :
  forall n err zs (st : loop_state) err' zs' st',
    nth_pass zhandle max_record_size st0 n err zs st ->
    loop_continues max_record_size err zs st = true ->
    inflate_loop fuel zhandle max_record_size st = Some (PassEnd err' zs' st') ->
    exists m, (n < m <= n + fuel)%nat /\
      nth_pass zhandle max_record_size st0 m err' zs' st' /\
      loop_continues max_record_size err' zs' st' = false.
Proof.
  induction fuel as [| fuel IH]; intros n err zs st err' zs' st' Hn Hcont Hl;
    simpl in Hl; [done |].
  destruct (inflate_pass zhandle st) as [o | err1 zs1 st1] eqn:Hp; [done |].
  pose proof (nth_pass_next _ _ _ _ _ _ _ _ _ _ Hn Hcont Hp) as Hn1.
  destruct (loop_continues max_record_size err1 zs1 st1) eqn:Hcont1.
  - destruct (IH _ _ _ _ _ _ _ Hn1 Hcont1 Hl) as (m & Hm & Hnm).
    exists m. split; [lia | done].
  - simplify_eq. exists (S n). split; [lia | done].
Qed.

(** The pass the loop is left after is one of the first [fuel]. *)
Lemma inflate_loop_nth zhandle max_record_size st0 fuel err zs (st : loop_state) :
  inflate_loop fuel zhandle max_record_size st0 = Some (PassEnd err zs st) ->
  exists n, (1 <= n <= fuel)%nat /\
    nth_pass zhandle max_record_size st0 n err zs st /\
    loop_continues max_record_size err zs st = false.
Proof.
  destruct fuel as [| fuel]; simpl; [done |]. intros Hl.
  destruct (inflate_pass zhandle st0) as [o | err1 zs1 st1] eqn:Hp; [done |].
  pose proof (nth_pass_first zhandle max_record_size st0 _ _ _ Hp) as Hn1.
  destruct (loop_continues max_record_size err1 zs1 st1) eqn:Hcont1.
  - destruct (inflate_loop_from_nth _ _ _ _ _ _ _ _ _ _ _ Hn1 Hcont1 Hl)
      as (m & Hm & Hnm).
    exists m. split; [lia | done].
  - simplify_eq. exists 1%nat. split; [lia | done].
Qed.

(** A return from inside the loop happens in a pass that the loop began. *)
Lemma inflate_loop_returns_in_pass zhandle max_record_size st0 fuel :
  forall n (st : loop_state) o,
    pass_begins zhandle max_record_size st0 n st ->
    inflate_loop fuel zhandle max_record_size st = Some (PassReturn o) ->
    exists m st',
      (n <= m < n + fuel)%nat /\
      pass_begins zhandle max_record_size st0 m st' /\
      inflate_pass zhandle st' = PassReturn o.
Proof.
  induction fuel as [| fuel IH]; intros n st o Hb Hl; simpl in Hl; [done |].
  destruct (inflate_pass zhandle st) as [o' | err1 zs1 st1] eqn:Hp.
  - simplify_eq. exists n, st. split; [lia | done].
  - destruct (loop_continues max_record_size err1 zs1 st1) eqn:Hcont1; [| done].
    assert (Hb1 : pass_begins zhandle max_record_size st0 (S n) st1).
    { right. exists err1, zs1. split; [by eapply pass_begins_next | done]. }
    destruct (IH _ _ _ Hb1 Hl) as (m & st' & Hm & Hb' & Hp').
    exists m, st'. split; [lia | done].
Qed.

Lemma pass_begins_loop zhandle max_record_size n :
  forall st0 (st : loop_state) o fuel,
    pass_begins zhandle max_record_size st0 n st ->
    inflate_pass zhandle st = PassReturn o ->
    (n < fuel)%nat ->
    inflate_loop fuel zhandle max_record_size st0 = Some (PassReturn o).
Proof.
  induction n as [| n IH]; intros st0 st o fuel Hb Hp Hlt;
    (destruct fuel as [| fuel]; [lia |]); simpl.
  - destruct Hb as [[_ ->] | (err & zs & Hn & _)]; [by rewrite Hp |].
    destruct (nth_pass_unshift _ _ _ _ _ _ _ Hn) as [[? _] | (? & ? & ? & ? & ? & _)];
      done.
  - destruct (pass_begins_unshift _ _ _ _ _ Hb) as (err1 & zs1 & st1 & Hp0 & Hc & Hb1).
    rewrite Hp0, Hc. apply (IH st1 st); [done | done | lia].
Qed.

(** Every pass adds 512 to the capacity, takes one answer from the
    allocator and runs the engine once. *)
Lemma nth_pass_accounting zhandle max_record_size st0 n err zs (st : loop_state) :
  nth_pass zhandle max_record_size st0 n err zs st ->
  out_size st = (out_size st0 + 512 * Z.of_nat n) mod 2 ^ 64 /\
  transforms (lw st) = (transforms (lw st0) + n)%nat /\
  alloc_script (lw st) = drop n (alloc_script (lw st0)) /\
  alloc_failures (lw st) = alloc_failures (lw st0).
Proof.
  intros Hn. induction Hn as [err zs st Hp | n err zs st err' zs' st' Hn IH Hc Hp].
  - destruct (inflate_pass_memory _ _ _ _ _ Hp)
      as (p & d & zs1 & _ & _ & Hout & _ & _ & _ & _ & _ & _ & _ & Hs & Hf & Ht & _).
    rewrite Hout, Hs, Hf, Ht. split; [| split; [lia | split; [| done]]].
    + unfold to_uLongf, size_t_bits; f_equal; lia.
    + by destruct (alloc_script (lw st0)).
  - destruct IH as (IHo & IHt & IHs & IHf).
    destruct (inflate_pass_memory _ _ _ _ _ Hp)
      as (p & d & zs1 & _ & _ & Hout & _ & _ & _ & _ & _ & _ & _ & Hs & Hf & Ht & _).
    rewrite Hout, Hs, Hf, Ht, IHo, IHt, IHs, IHf.
    split; [| split; [lia | split; [| done]]].
    + unfold to_uLongf, size_t_bits. rewrite Zplus_mod_idemp_l; f_equal; lia.
    + change (tail (drop n (alloc_script (lw st0))))
        with (drop 1 (drop n (alloc_script (lw st0)))).
      rewrite drop_drop. f_equal. lia.
Qed.

Lemma pass_reached_nth zhandle max_record_size st0 k err zs (st : loop_state) :
  pass_reached zhandle max_record_size st0 k err zs st ->
  exists n, (k < n)%nat /\ nth_pass zhandle max_record_size st0 n err zs st.
Proof.
  intros Hr. induction Hr as [err zs st Hp
                             | k err zs st err' zs' st' Hr IH Hb Hp
                             | k err zs st err' zs' st' Hr IH Ho Hp].
  - exists 1%nat. split; [lia |]. by apply nth_pass_first.
  - destruct IH as (n & Hn & Hnth). exists (S n). split; [lia |].
    eapply nth_pass_next; [done | | done].
    unfold loop_continues. by rewrite Hb.
  - destruct IH as (n & Hn & Hnth). exists (S n). split; [lia |].
    eapply nth_pass_next; [done | | done].
    unfold loop_continues. rewrite Ho. apply orb_true_r.
Qed.

(** C2, amended. After every pass of the growth loop the output buffer has
    exactly [out_size] bytes, and this capacity is at most the larger of
    [2 * compressed_size + 512], the capacity of the first pass, and
    [max_record_size + 511], plus 512 for each earlier pass that ended with
    [Z_OK] and input left; so continuations on buffer exhaustion alone
    ([k = 0]) never take the capacity past that larger value.  A pass entered
    on buffer exhaustion ([Z_BUF_ERROR] with no output space left) starts
    from a capacity below [max_record_size] and has a capacity of at most
    [max_record_size + 511].  And a pass that ends with [Z_BUF_ERROR] at a
    capacity that has reached [max_record_size] is the last one: the loop is
    left after it. *)
Theorem growth_on_buf_error_is_capped z zs0 compressed compressed_size
    max_record_size (w : world') k err zs st :
  0 <= compressed_size ->
  pass_reached z max_record_size
    (decompress_entry z zs0 compressed compressed_size w) k err zs st ->
  (exists p d,
      plain_ptr st = Some p /\ heap (lw st) !! p = Some (Buffer d) /\
      Z.of_nat (length d) = out_size st) /\
  out_size st
  <= Z.max (2 * compressed_size + 512) (max_record_size + 511) + 512 * Z.of_nat k /\
  (forall err' zs' st',
      continues_on_buf_error max_record_size err zs st = true ->
      inflate_pass z st = PassEnd err' zs' st' ->
      out_size st < max_record_size /\ out_size st' <= out_size st + 512 /\
      out_size st' <= max_record_size + 511) /\
  (err = Z_BUF_ERROR -> max_record_size <= out_size st ->
   loop_continues max_record_size err zs st = false /\
   exists n, forall fuel, (n <= fuel)%nat ->
     inflate_loop fuel z max_record_size
       (decompress_entry z zs0 compressed compressed_size w)
     = Some (PassEnd err zs st)).
Proof.
  intros Hc Hr.
  destruct (pass_reached_capacity _ _ _ _ _ _ _ Hr) as [Hrange Hbuf].
  split; [done |]. split; [| split].
  - assert (H0 : 0 <= out_size (decompress_entry z zs0 compressed compressed_size w)
                 <= 2 * compressed_size).
    { simpl. pose proof (to_uLongf_range (to_size_t (compressed_size + compressed_size))).
      pose proof (to_uLongf_le (to_size_t (compressed_size + compressed_size))).
      pose proof (to_size_t_le (compressed_size + compressed_size)).
      pose proof (to_size_t_range (compressed_size + compressed_size)). lia. }
    pose proof (pass_reached_growth _ _ _ _ _ _ _ (proj1 H0) Hr). lia.
  - intros err' zs' st' Hb Hp.
    destruct (inflate_pass_memory _ _ _ _ _ Hp)
      as (p & d & zs1 & _ & _ & Hout & _).
    unfold continues_on_buf_error in Hb.
    apply andb_true_iff in Hb as [_ Hlt]. apply Z.ltb_lt in Hlt.
    pose proof (to_uLongf_le (out_size st + 512)). lia.
  - intros -> Hge.
    assert (Hexit : loop_continues max_record_size Z_BUF_ERROR zs st = false).
    { unfold loop_continues, continues_on_buf_error, continues_on_ok.
      replace (out_size st <? max_record_size) with false by (symmetry; lia).
      by rewrite andb_false_r. }
    split; [done |].
    destruct (pass_reached_nth _ _ _ _ _ _ _ Hr) as (n & _ & Hn).
    exists n. intros fuel Hle. by eapply nth_pass_loop.
Qed.

(** *** Leaving the growth loop *)

Lemma loop_exit_conditions max_record_size err (zs : z_stream') (st : loop_state) :
  loop_continues max_record_size err zs st = false <->
  (err = Z_OK /\ avail_in zs = 0) \/
  (err = Z_BUF_ERROR /\ (avail_out zs <> 0 \/ max_record_size <= out_size st)) \/
  (err <> Z_OK /\ err <> Z_BUF_ERROR).
Proof.
  unfold loop_continues, continues_on_buf_error, continues_on_ok, Z_OK, Z_BUF_ERROR.
  destruct (Z.eqb_spec err (-5)) as [Hb | Hb]; destruct (Z.eqb_spec err 0) as [Ho | Ho];
    destruct (Z.eqb_spec (avail_out zs) 0); destruct (Z.eqb_spec (avail_in zs) 0);
    destruct (Z.ltb_spec (out_size st) max_record_size); simpl;
    split; intros; try done; try lia; eauto 6 with lia.
Qed.

Lemma inflate_loop_more_fuel zhandle max_record_size fuel :
  forall fuel' (st : loop_state) res,
    (fuel <= fuel')%nat ->
    inflate_loop fuel zhandle max_record_size st = Some res ->
    inflate_loop fuel' zhandle max_record_size st = Some res.
Proof.
  induction fuel as [| fuel IH]; intros fuel' st res Hle Hl; simpl in Hl; [done |].
  destruct fuel' as [| fuel']; [lia |]. simpl.
  destruct (inflate_pass zhandle st) as [o | err zs st']; [done |].
  destruct (loop_continues max_record_size err zs st'); [| done].
  apply IH; [lia | done].
Qed.

(** With an engine that makes progress the loop is left after finitely many
    passes. *)
Lemma inflate_loop_terminates measure zhandle max_record_size :
  makes_progress inflate measure ->
  max_record_size <= 2 ^ 64 - 512 ->
  forall n d (st : loop_state),
    (forall zs, heap (lw st) !! zhandle = Some (Stream zs) -> (measure zs <= n)%nat) ->
    (Z.to_nat (max_record_size - to_uLongf (out_size st + 512)) <= d)%nat ->
    exists fuel res, inflate_loop fuel zhandle max_record_size st = Some res.
Proof.
  intros [Hset Hstep] Hmax.
  induction n as [n IHn] using lt_wf_ind.
  induction d as [d IHd] using lt_wf_ind.
  intros st Hn Hd.
  destruct (inflate_pass zhandle st) as [o | err zs st'] eqn:Hp.
  { exists 1%nat, (PassReturn o). simpl. by rewrite Hp. }
  destruct (loop_continues max_record_size err zs st') eqn:Hcont.
  2:{ exists 1%nat, (PassEnd err zs st'). simpl. by rewrite Hp, Hcont. }
  destruct (inflate_pass_memory _ _ _ _ _ Hp)
    as (p & b & zs0 & _ & _ & Hout & _ & Hz0 & Hi & _ & _ & Hz & _).
  specialize (Hn _ Hz0).
  pose proof (Hstep (set_output zs0 (Some (p, cur_pos st))
                       (to_uInt (to_uLongf (out_size st' - cur_pos st))))
                Z_SYNC_FLUSH) as Hs.
  rewrite Hi, Hset in Hs. destruct Hs as [Hok Hbuf].
  assert (Hnext : exists fuel res,
             inflate_loop fuel zhandle max_record_size st' = Some res).
  { unfold loop_continues in Hcont. apply orb_true_iff in Hcont as [Hb | Ho].
    - unfold continues_on_buf_error in Hb.
      apply andb_true_iff in Hb as [Hb Hlt]. apply andb_true_iff in Hb as [Hb _].
      apply Z.eqb_eq in Hb. apply Z.ltb_lt in Hlt. specialize (Hbuf Hb).
      pose proof (to_uLongf_range (out_size st + 512)) as Hrange.
      rewrite <- Hout in Hd, Hrange.
      apply (IHd (Z.to_nat (max_record_size - to_uLongf (out_size st' + 512)))).
      + unfold to_uLongf at 1, size_t_bits. rewrite Z.mod_small by lia. lia.
      + intros zs' Hz'. rewrite Hz in Hz'. simplify_eq. lia.
      + lia.
    - unfold continues_on_ok in Ho. apply andb_true_iff in Ho as [Ho Hin].
      apply Z.eqb_eq in Ho. apply negb_true_iff, Z.eqb_neq in Hin.
      specialize (Hok Ho Hin).
      apply (IHn (measure zs) ltac:(lia)
               (Z.to_nat (max_record_size - to_uLongf (out_size st' + 512)))).
      + intros zs' Hz'. rewrite Hz in Hz'. by simplify_eq.
      + lia. }
  destruct Hnext as (fuel & res & Hl).
  exists (S fuel), res. simpl. by rewrite Hp, Hcont.
Qed.

(** With an allocator that refuses a request in the end, the loop is left
    whatever the engine does: at the latest by the pass that meets the
    refusal. *)
Lemma inflate_loop_refused zhandle max_record_size (l : list bool) :
  forall st : loop_state,
    alloc_script (lw st) = l -> In false l ->
    exists fuel res,
      (fuel <= length l)%nat /\
      inflate_loop fuel zhandle max_record_size st = Some res.
Proof.
  induction l as [| b l IH]; intros st Hs Hin; [destruct Hin |].
  destruct (inflate_pass zhandle st) as [o | err zs st'] eqn:Hp.
  { exists 1%nat, (PassReturn o). split; [simpl; lia |]. simpl. by rewrite Hp. }
  destruct (loop_continues max_record_size err zs st') eqn:Hcont.
  - destruct (inflate_pass_memory _ _ _ _ _ Hp)
      as (p & d & zs1 & _ & _ & _ & _ & _ & _ & _ & _ & _ & _ & Hs' & _).
    rewrite Hs in Hs'. simpl in Hs'.
    assert (Hin' : In false l).
    { destruct Hin as [-> | Hin]; [| done].
      unfold inflate_pass, mhd_gtls_realloc_fast in Hp. by rewrite Hs in Hp. }
    destruct (IH st' Hs' Hin') as (fuel & res & Hle & Hl).
    exists (S fuel), res. split; [simpl; lia |]. simpl. by rewrite Hp, Hcont.
  - exists 1%nat, (PassEnd err zs st'). split; [simpl; lia |]. simpl.
    by rewrite Hp, Hcont.
Qed.

(** When the loop is left, the call completes, and more fuel does not change
    its result. *)
Lemma decompress_completes handle compressed compressed_size plain
    max_record_size (w : world') :
  (forall z zs,
      exists fuel res,
        inflate_loop fuel z max_record_size
          (decompress_entry z zs compressed compressed_size w) = Some res) ->
  exists fuel o,
    forall fuel', (fuel <= fuel')%nat ->
      mhd_gtls_decompress fuel' handle compressed compressed_size plain
        max_record_size w = Some o.
Proof.
  intros Hloop. unfold mhd_gtls_decompress.
  destruct (compressed_size >? _); [by exists 0%nat; eauto |].
  destruct handle as [h |]; [| by exists 0%nat; eauto].
  unfold decompress_switch.
  destruct (heap w !! h) as [[algo zhandle | |] |]; try by (exists 0%nat; eauto).
  destruct algo; try by (exists 0%nat; eauto).
  destruct zhandle as [z |]; [| by exists 0%nat; eauto].
  destruct (stream_at (Some z) w) as [zs |]; [| by exists 0%nat; eauto].
  set (st0 := decompress_entry z zs compressed compressed_size w).
  destruct (Hloop z zs) as (fuel & res & Hl). fold st0 in Hl.
  exists fuel.
  assert (Hmore : forall fuel', (fuel <= fuel')%nat ->
             inflate_loop fuel' z max_record_size st0 = Some res).
  { intros fuel' Hle. by eapply inflate_loop_more_fuel. }
  destruct res as [o | err zs' st].
  - exists o. intros fuel' Hle. by rewrite Hmore.
  - destruct (negb (err =? Z_OK)) eqn:He.
    { eexists. intros fuel' Hle. rewrite Hmore by done. by rewrite He. }
    destruct (to_size_t (to_int (to_uLongf (out_size st - avail_out zs')))
              >? max_record_size) eqn:Hpost.
    + eexists. intros fuel' Hle. rewrite Hmore by done. by rewrite He, Hpost.
    + eexists. intros fuel' Hle. rewrite Hmore by done. by rewrite He, Hpost.
Qed.

(** A pass returns from inside the loop when its growth step is refused
    (or when the engine pointer dangles), and only then. *)
Lemma inflate_pass_returns zhandle (st : loop_state) (o : outcome') :
  inflate_pass zhandle st = PassReturn o <->
  (exists w1,
      mhd_gtls_realloc_fast (plain_ptr st) (to_uLongf (out_size st + 512)) (lw st)
      = (None, w1) /\
      o = Returned GNUTLS_E_MEMORY_ERROR None w1) \/
  (exists p w1,
      mhd_gtls_realloc_fast (plain_ptr st) (to_uLongf (out_size st + 512)) (lw st)
      = (Some p, w1) /\
      stream_at (Some zhandle) w1 = None /\ o = Undefined).
Proof.
  unfold inflate_pass.
  destruct (mhd_gtls_realloc_fast _ _ _) as [[p |] w1].
  - destruct (stream_at (Some zhandle) w1) as [zs |] eqn:Hz.
    + destruct (inflate _ _) as [[err zs2] bs]. split; [done |].
      intros [(w2 & ? & _) | (q & w2 & ? & ? & _)]; simplify_eq.
    + split.
      * intros ?. simplify_eq. right. eauto.
      * intros [(w2 & ? & _) | (q & w2 & ? & ? & ->)]; by simplify_eq.
  - split.
    + intros ?. simplify_eq. left. eauto.
    + intros [(w2 & ? & ->) | (q & w2 & ? & _)]; by simplify_eq.
Qed.

(** C9, amended. The growth loop has four exits.  It is left after a pass
    that ends with [Z_OK] and all input consumed (whether or not output
    space remains), with [Z_BUF_ERROR] and output space left or the capacity
    at or above the maximum, or with any other status: after the first such
    pass, and after no other.  And it is left from inside a pass, by the
    return with MEMORY_ERROR, when the growth step of that pass is refused
    (the return for a dangling engine pointer is the undefined case).
    [mhd_gtls_decompress] completes after finitely many passes, whatever the
    input, when the engine cannot report [Z_OK] with unconsumed input for
    ever (and the maximum is at most [2 ^ 64 - 512]), or when the allocator
    refuses a request in the end; more fuel does not change its result. *)
Theorem decompress_terminates measure handle compressed compressed_size plain
    max_record_size (w : world') :
  (makes_progress inflate measure /\ max_record_size <= 2 ^ 64 - 512) \/
  In false (alloc_script w) ->
  (exists fuel o,
      forall fuel', (fuel <= fuel')%nat ->
        mhd_gtls_decompress fuel' handle compressed compressed_size plain
          max_record_size w = Some o) /\
  (forall fuel z st0 err (zs : z_stream') (st : loop_state),
      inflate_loop fuel z max_record_size st0 = Some (PassEnd err zs st) <->
      exists n,
        (1 <= n <= fuel)%nat /\ nth_pass z max_record_size st0 n err zs st /\
        ((err = Z_OK /\ avail_in zs = 0) \/
         (err = Z_BUF_ERROR /\
          (avail_out zs <> 0 \/ max_record_size <= out_size st)) \/
         (err <> Z_OK /\ err <> Z_BUF_ERROR))) /\
  (forall fuel z st0 (o : outcome'),
      inflate_loop fuel z max_record_size st0 = Some (PassReturn o) <->
      exists n (st : loop_state),
        (n < fuel)%nat /\ pass_begins z max_record_size st0 n st /\
        inflate_pass z st = PassReturn o) /\
  (forall z (st : loop_state) (o : outcome'),
      inflate_pass z st = PassReturn o <->
      (exists w1,
          mhd_gtls_realloc_fast (plain_ptr st) (to_uLongf (out_size st + 512))
            (lw st) = (None, w1) /\
          o = Returned GNUTLS_E_MEMORY_ERROR None w1) \/
      (exists p w1,
          mhd_gtls_realloc_fast (plain_ptr st) (to_uLongf (out_size st + 512))
            (lw st) = (Some p, w1) /\
          stream_at (Some z) w1 = None /\ o = Undefined)).
Proof.
  intros Hwhy. split; [| split; [| split]].
  - apply decompress_completes. intros z zs.
    set (st0 := decompress_entry z zs compressed compressed_size w).
    destruct Hwhy as [[Hprog Hmax] | Hrefuse].
    + assert (Hz0 : heap (lw st0) !! z
                    = Some (Stream (set_input zs compressed (to_uInt compressed_size))))
        by apply lookup_insert_eq.
      apply (inflate_loop_terminates measure z max_record_size Hprog Hmax
               (measure (set_input zs compressed (to_uInt compressed_size)))
               (Z.to_nat (max_record_size - to_uLongf (out_size st0 + 512))) st0);
        [| lia].
      intros zs' Hz'. rewrite Hz0 in Hz'. by simplify_eq.
    + destruct (inflate_loop_refused z max_record_size (alloc_script w) st0
                  eq_refl Hrefuse) as (fuel & res & _ & Hl).
      eauto.
  - intros fuel z st0 err zs st. split.
    + intros Hl. destruct (inflate_loop_nth _ _ _ _ _ _ _ Hl) as (n & Hn & Hnth & Hexit).
      exists n. split; [done |]. split; [done |]. by apply loop_exit_conditions.
    + intros (n & Hn & Hnth & Hexit). apply loop_exit_conditions in Hexit.
      eapply nth_pass_loop; [done | done | lia].
  - intros fuel z st0 o. split.
    + intros Hl.
      destruct (inflate_loop_returns_in_pass z max_record_size st0 fuel 0%nat st0 o)
        as (m & st' & Hm & Hb & Hp); [by left | done |].
      exists m, st'. split; [lia | done].
    + intros (n & st & Hn & Hb & Hp). by eapply pass_begins_loop.
  - apply inflate_pass_returns.
Qed.

(** *** What the operations do with the bytes of the engine *)




End Properties.

(** ** The operations at work on concrete engines *)

Lemma gnutls_constants_negative : @error_codes_negative gnutls_constants.
Proof. unfold error_codes_negative. simpl. lia. Qed.

Lemma stored_engine_keeps_output_space chunk :
  keeps_output_space (@deflate unit (stored_engine chunk)) /\
  keeps_output_space (@inflate unit (stored_engine chunk)).
Proof.
  split; intros zs flush Hout; simpl; unfold moved; lia.
Qed.


(** An input of 5000 bytes against a maximum of 100 is turned away at the
    door. *)
Lemma bomb_rejection_witness :
  (0 <= 100 /\ 0 <= 2048 /\ 100 + 2048 < 5000) /\
  @mhd_gtls_decompress unit (stored_engine 100) gnutls_constants 0
    (Some 1%positive) [] 5000 None 100 (world_with_handle (stored_engine 100) 1)
  = Some (Returned (-26) None (world_with_handle (stored_engine 100) 1)).
Proof.
  split; [lia |].
  apply (@bomb_rejection unit (stored_engine 100) gnutls_constants 0
           (Some 1%positive) [] 5000 None 100
           (world_with_handle (stored_engine 100) 1)); simpl; lia.
Defined.

(** With a null handle: 5000 bytes against a maximum of 100 fail the size
    check, 2000 bytes pass it and meet the handle check. *)
Lemma size_check_precedes_handle_check_witness :
  (0 <= 100 /\ 0 <= 2048 /\ -26 <> -59) /\
  @mhd_gtls_decompress unit (stored_engine 100) gnutls_constants 0
    None [] 5000 None 100 empty_world
  = Some (Returned (-26) None empty_world) /\
  @mhd_gtls_decompress unit (stored_engine 100) gnutls_constants 0
    None [] 2000 None 100 empty_world
  = Some (Returned (-59) None empty_world).
Proof.
  split; [lia |].
  pose proof (@size_check_precedes_handle_check unit (stored_engine 100)
                gnutls_constants 0 [] 5000 None 100 empty_world) as H1.
  pose proof (@size_check_precedes_handle_check unit (stored_engine 100)
                gnutls_constants 0 [] 2000 None 100 empty_world) as H2.
  simpl in H1, H2.
  destruct H1 as (H1 & _); [lia | lia | lia |].
  destruct H2 as (_ & _ & H2); [lia | lia | lia |].
  split; [apply H1; lia | apply H2; vm_compute; discriminate].
Defined.

(** C5, as stated, fails: the stored-data engine reports [Z_OK] and consumes
    the one byte it is given, yet with a maximum of 0 the post-check makes
    [mhd_gtls_compress] fail with COMPRESSION_FAILED. *)
Lemma compress_fails_after_engine_ok :
  let w := world_with_handle (stored_engine 100) 0 in
  let res :=
    @deflate unit (stored_engine 100)
      (compress_stream blank_stream [x01] 1 (fresh (dom (heap w)))
         (compress_capacity 1)) Z_SYNC_FLUSH in
  deflate_handle 1%positive 2%positive blank_stream w /\
  allocation_succeeds w /\
  res.1.1 = Z_OK /\ avail_in res.1.2 = 0 /\
  exists w',
    @mhd_gtls_compress unit (stored_engine 100) gnutls_constants
      (Some 1%positive) [x01] 1 None 0 w
    = Returned (@GNUTLS_E_COMPRESSION_FAILED gnutls_constants) None w' /\
    @GNUTLS_E_COMPRESSION_FAILED gnutls_constants < 0.
Proof.
  intros w res. split; [split; vm_compute; reflexivity |].
  split; [vm_compute; discriminate |].
  split; [vm_compute; reflexivity |]. split; [vm_compute; reflexivity |].
  eexists. split; [vm_compute; reflexivity | simpl; lia].
Qed.

(** Three bytes and a maximum of 100: the engine reports [Z_OK], nothing is
    left unconsumed, the size is 3, and the call succeeds. *)
Lemma compress_success_condition_witness :
  let w := world_with_handle (stored_engine 100) 0 in
  let res :=
    @deflate unit (stored_engine 100)
      (compress_stream blank_stream [x01; x02; x03] 3 (fresh (dom (heap w)))
         (compress_capacity 3)) Z_SYNC_FLUSH in
  @error_codes_negative gnutls_constants /\
  deflate_handle 1%positive 2%positive blank_stream w /\
  allocation_succeeds w /\
  exists r out w',
    @mhd_gtls_compress unit (stored_engine 100) gnutls_constants
      (Some 1%positive) [x01; x02; x03] 3 None 100 w = Returned r out w' /\
    transforms w' = S (transforms w) /\
    (0 <= r <->
     res.1.1 = Z_OK /\ avail_in res.1.2 = 0 /\
     0 <= to_int (to_uLongf (compress_capacity 3 - avail_out res.1.2)) <= 100) /\
    (res.1.1 <> Z_OK \/ avail_in res.1.2 <> 0 ->
     r = @GNUTLS_E_COMPRESSION_FAILED gnutls_constants /\ out = None /\
     heap w' !! fresh (dom (heap w)) = None /\ dom (heap w') = dom (heap w)).
Proof.
  intros w res.
  assert (Hh : deflate_handle 1%positive 2%positive blank_stream w)
    by (split; vm_compute; reflexivity).
  assert (Ha : allocation_succeeds w) by (vm_compute; discriminate).
  split; [exact gnutls_constants_negative |]. split; [exact Hh |].
  split; [exact Ha |].
  apply (@compress_success_condition unit (stored_engine 100) gnutls_constants
           1%positive 2%positive blank_stream [x01; x02; x03] 3 None 100 w
           res.1.1 res.1.2 res.2 gnutls_constants_negative Hh Ha).
  subst res. by destruct (deflate _ _) as [[? ?] ?].
Defined.

(** C8, as stated, fails: for [plain_size = 2 ^ 63] the size computation
    wraps, and the buffer handed to the caller has 10 bytes, not
    [2 * 2 ^ 63 + 10]. *)
Lemma compress_capacity_wraps :
  let w := world_with_handle (stored_engine 100) 0 in
  exists p w',
    @mhd_gtls_compress unit (stored_engine 100) gnutls_constants
      (Some 1%positive) [] (2 ^ 63) None 100 w = Returned 0 (Some p) w' /\
    length (buffer_at (Some p) w') = 10%nat /\
    Z.of_nat (length (buffer_at (Some p) w')) <> 2 * 2 ^ 63 + 10.
Proof.
  intros w. do 2 eexists. split; [vm_compute; reflexivity |].
  split; [vm_compute; reflexivity | vm_compute; discriminate].
Qed.

(** Three bytes: a buffer of 16 bytes, and a returned length of 3. *)
Lemma compress_capacity_and_length_witness :
  let w := world_with_handle (stored_engine 100) 0 in
  (@error_codes_negative gnutls_constants /\
   keeps_output_space (@deflate unit (stored_engine 100)) /\
   0 <= 3 /\ deflate_handle 1%positive 2%positive blank_stream w) /\
  exists out w',
    @mhd_gtls_compress unit (stored_engine 100) gnutls_constants
      (Some 1%positive) [x01; x02; x03] 3 None 100 w = Returned 3 out w' /\
    length (buffer_at out w') = Z.to_nat (compress_capacity 3) /\
    compress_capacity 3 = 2 * 3 + 10 /\
    3 <= compress_capacity 3 <= 2 * 3 + 10.
Proof.
  intros w.
  assert (Hh : deflate_handle 1%positive 2%positive blank_stream w)
    by (split; vm_compute; reflexivity).
  split.
  { split; [exact gnutls_constants_negative |].
    split; [apply stored_engine_keeps_output_space |]. split; [lia | exact Hh]. }
  destruct (@mhd_gtls_compress unit (stored_engine 100) gnutls_constants
              (Some 1%positive) [x01; x02; x03] 3 None 100 w)
    as [r out w' |] eqn:Hc; [| vm_compute in Hc; discriminate].
  assert (Hr : r = 3) by (vm_compute in Hc; congruence). subst r.
  exists out, w'. split; [reflexivity |].
  destruct (@compress_capacity_and_length unit (stored_engine 100) gnutls_constants
              1%positive 2%positive blank_stream [x01; x02; x03] 3 None 100 w
              3 out w' gnutls_constants_negative
              (proj1 (stored_engine_keeps_output_space 100)) ltac:(lia) Hh Hc
              ltac:(lia)) as (_ & Hlen & _ & Hcap & Hle).
  split; [exact Hlen |]. split; [apply Hcap; lia | exact Hle].
Defined.

(** C2, as stated, fails.  The stored-data engine that moves one byte per
    call is given three bytes and a maximum of 100.  The first pass already
    allocates 518 bytes, more than the maximum; the engine reports [Z_OK]
    with input left, and the loop grows the buffer to 1030 and then to 1542
    bytes; the call hands that buffer of 1542 bytes to the caller. *)
Lemma capacity_grows_past_maximum :
  let w := world_with_handle (stored_engine 1) 1 in
  let st0 := @decompress_entry unit 2%positive blank_stream [x01; x02; x03] 3 w in
  (exists err zs st,
      @pass_reached unit (stored_engine 1) gnutls_constants 2%positive 100 st0
        0 err zs st /\
      out_size st = 518 /\
      length (buffer_at (plain_ptr st) (lw st)) = 518%nat /\
      100 < out_size st) /\
  (exists err zs st,
      @pass_reached unit (stored_engine 1) gnutls_constants 2%positive 100 st0
        2 err zs st /\
      out_size st = 1542 /\
      length (buffer_at (plain_ptr st) (lw st)) = 1542%nat /\
      100 < out_size st) /\
  (exists out w',
      @mhd_gtls_decompress unit (stored_engine 1) gnutls_constants 3
        (Some 1%positive) [x01; x02; x03] 3 None 100 w
      = Some (Returned 3 out w') /\
      length (buffer_at out w') = 1542%nat).
Proof.
  intros w st0. split; [| split].
  - do 3 eexists. split.
    + eapply first_pass. vm_compute. reflexivity.
    + split; [vm_compute; reflexivity |].
      split; [vm_compute; reflexivity | vm_compute; reflexivity].
  - do 3 eexists. split.
    + eapply pass_after_ok.
      * eapply pass_after_ok.
        -- eapply first_pass. vm_compute. reflexivity.
        -- vm_compute. reflexivity.
        -- vm_compute. reflexivity.
      * vm_compute. reflexivity.
      * vm_compute. reflexivity.
    + split; [vm_compute; reflexivity |].
      split; [vm_compute; reflexivity | vm_compute; reflexivity].
  - do 2 eexists. split; vm_compute; reflexivity.
Qed.

(** Buffer exhaustion at work.  The run-length engine is given one byte
    that stands for 2000 bytes, against a maximum of 1000.  The first pass
    fills its 514 bytes and ends with [Z_BUF_ERROR]; the capacity is below
    the maximum, so the loop goes round; the second pass fills its 1026
    bytes and ends with [Z_BUF_ERROR] again; the capacity has reached the
    maximum, and the loop is left.  And continuations on [Z_OK]: the
    stored-data engine that moves one byte per call, given three bytes
    against a maximum of 100, reaches its third pass after two of them, with
    a capacity of 1542 bytes, within the bound for [k = 2]. *)
Lemma growth_on_buf_error_is_capped_witness :
  (let w := run_world 2000 1 in
   let zs0 := ZStream [] 0 None 0 0 0 0 (Some (true, 0)) in
   let st0 := @decompress_entry (bool * Z) 2%positive zs0 [x01] 1 w in
   exists err zs st,
     (0 <= 1 /\
      @pass_reached (bool * Z) (run_engine 2000) gnutls_constants 2%positive 1000
        st0 0 err zs st) /\
     err = Z_BUF_ERROR /\ out_size st = 1026 /\
     (exists p d,
         plain_ptr st = Some p /\ heap (lw st) !! p = Some (Buffer d) /\
         Z.of_nat (length d) = out_size st) /\
     out_size st <= Z.max (2 * 1 + 512) (1000 + 511) + 512 * Z.of_nat 0 /\
     loop_continues 1000 err zs st = false /\
     exists n, forall fuel, (n <= fuel)%nat ->
       @inflate_loop (bool * Z) (run_engine 2000) gnutls_constants fuel 2%positive
         1000 st0 = Some (PassEnd err zs st)) /\
  (let w := world_with_handle (stored_engine 1) 1 in
   let st0 := @decompress_entry unit 2%positive blank_stream [x01; x02; x03] 3 w in
   exists err zs st,
     (0 <= 3 /\
      @pass_reached unit (stored_engine 1) gnutls_constants 2%positive 100 st0
        2 err zs st) /\
     out_size st = 1542 /\
     out_size st <= Z.max (2 * 3 + 512) (100 + 511) + 512 * Z.of_nat 2).
Proof.
  split.
  - intros w zs0 st0.
    assert (Hr : exists err zs st,
               @pass_reached (bool * Z) (run_engine 2000) gnutls_constants 2%positive
                 1000 st0 0 err zs st /\
               err = Z_BUF_ERROR /\ out_size st = 1026).
    { do 3 eexists. split.
      - eapply pass_after_buf_error.
        + eapply first_pass. vm_compute. reflexivity.
        + vm_compute. reflexivity.
        + vm_compute. reflexivity.
      - split; vm_compute; reflexivity. }
    destruct Hr as (err & zs & st & Hr & He & Ho).
    assert (H0 : 0 <= 1) by (vm_compute; discriminate).
    destruct (@growth_on_buf_error_is_capped (bool * Z) (run_engine 2000)
                gnutls_constants 2%positive zs0 [x01] 1 1000 w 0%nat err zs st H0 Hr)
      as (Hcap & Hle & _ & Hstop).
    assert (Hge : 1000 <= out_size st) by (rewrite Ho; vm_compute; discriminate).
    destruct (Hstop He Hge) as [Hexit Hleft].
    exists err, zs, st. split; [split; [exact H0 | exact Hr] |].
    split; [exact He |]. split; [exact Ho |]. split; [exact Hcap |].
    split; [exact Hle |]. split; [exact Hexit | exact Hleft].
  - intros w st0.
    assert (Hr : exists err zs st,
               @pass_reached unit (stored_engine 1) gnutls_constants 2%positive
                 100 st0 2 err zs st /\ out_size st = 1542).
    { do 3 eexists. split.
      - eapply pass_after_ok.
        + eapply pass_after_ok.
          * eapply first_pass. vm_compute. reflexivity.
          * vm_compute. reflexivity.
          * vm_compute. reflexivity.
        + vm_compute. reflexivity.
        + vm_compute. reflexivity.
      - vm_compute. reflexivity. }
    destruct Hr as (err & zs & st & Hr & Ho).
    assert (H0 : 0 <= 3) by (vm_compute; discriminate).
    destruct (@growth_on_buf_error_is_capped unit (stored_engine 1)
                gnutls_constants 2%positive blank_stream [x01; x02; x03] 3 100 w
                2%nat err zs st H0 Hr) as (_ & Hle & _).
    exists err, zs, st. split; [split; [exact H0 | exact Hr] |].
    split; [exact Ho | exact Hle].
Defined.

(** No input at all: the stored-data engine reports [Z_BUF_ERROR], the loop
    is left after one pass, and the call fails having released the buffer. *)
Lemma decompress_failure_releases_buffer_witness :
  let w := world_with_handle (stored_engine 100) 1 in
  exists err zs st,
    (deflate_handle 1%positive 2%positive blank_stream w /\
     0 <= to_size_t (100 + @EXTRA_COMP_SIZE gnutls_constants) /\
     @inflate_loop unit (stored_engine 100) gnutls_constants 1 2%positive 100
       (decompress_entry 2%positive blank_stream [] 0 w) = Some (PassEnd err zs st) /\
     err <> Z_OK) /\
    exists p w',
      @mhd_gtls_decompress unit (stored_engine 100) gnutls_constants 1
        (Some 1%positive) [] 0 None 100 w
      = Some (Returned (@GNUTLS_E_DECOMPRESSION_FAILED gnutls_constants) None w') /\
      plain_ptr st = Some p /\ heap w' !! p = None /\
      dom (heap w') = dom (heap w).
Proof.
  intros w.
  assert (Hh : deflate_handle 1%positive 2%positive blank_stream w)
    by (split; vm_compute; reflexivity).
  assert (Hs : 0 <= to_size_t (100 + @EXTRA_COMP_SIZE gnutls_constants))
    by (vm_compute; discriminate).
  destruct (@inflate_loop unit (stored_engine 100) gnutls_constants 1 2%positive 100
              (decompress_entry 2%positive blank_stream [] 0 w))
    as [[o | err zs st] |] eqn:Hl;
    [vm_compute in Hl; discriminate | | vm_compute in Hl; discriminate].
  assert (He : err <> Z_OK).
  { assert (err = Z_BUF_ERROR) as -> by (vm_compute in Hl; by simplify_eq). done. }
  exists err, zs, st. split; [by repeat split |].
  exact (proj1 (@decompress_failure_releases_buffer unit (stored_engine 100)
                  gnutls_constants 1 1%positive 2%positive blank_stream [] 0 None
                  100 w err zs st Hh Hs Hl He)).
Defined.

Lemma stored_engine_makes_progress chunk :
  makes_progress (@inflate unit (stored_engine chunk))
    (fun zs => Z.to_nat (avail_in zs)).
Proof.
  split; [done |]. intros zs flush. simpl.
  destruct (Z.ltb_spec 0 (moved chunk zs)) as [Hm | Hm]; unfold moved in *;
    (split; [intros He Hin; try done | intros He; try done]); lia.
Qed.

(** With the engine that moves one byte per call, decompressing three bytes
    takes three passes.  With the idle engine, which never consumes
    anything, and an allocator that refuses its third request, the call is
    over in the third pass, with MEMORY_ERROR. *)
Lemma decompress_terminates_witness :
  let w := world_with_handle (stored_engine 1) 1 in
  let w2 := World (heap (world_with_handle idle_engine 1)) [true; true; false] 0 0 [] in
  ((makes_progress (@inflate unit (stored_engine 1))
      (fun zs => Z.to_nat (avail_in zs)) /\
    100 <= 2 ^ 64 - 512) /\
   In false (alloc_script w2)) /\
  (exists fuel o,
      forall fuel', (fuel <= fuel')%nat ->
        @mhd_gtls_decompress unit (stored_engine 1) gnutls_constants fuel'
          (Some 1%positive) [x01; x02; x03] 3 None 100 w = Some o) /\
  (exists out w',
      @mhd_gtls_decompress unit (stored_engine 1) gnutls_constants 3
        (Some 1%positive) [x01; x02; x03] 3 None 100 w
      = Some (Returned 3 out w')) /\
  (exists fuel o,
      forall fuel', (fuel <= fuel')%nat ->
        @mhd_gtls_decompress unit idle_engine gnutls_constants fuel'
          (Some 1%positive) [x01] 1 None 100 w2 = Some o) /\
  (exists w',
      @mhd_gtls_decompress unit idle_engine gnutls_constants 3
        (Some 1%positive) [x01] 1 None 100 w2
      = Some (Returned (-25) None w')).
Proof.
  intros w w2.
  assert (Hprog : makes_progress (@inflate unit (stored_engine 1))
                    (fun zs => Z.to_nat (avail_in zs)) /\
                  100 <= 2 ^ 64 - 512)
    by (split; [apply stored_engine_makes_progress | lia]).
  assert (Hrefuse : In false (alloc_script w2)) by (simpl; tauto).
  split; [split; [exact Hprog | exact Hrefuse] |].
  split; [| split; [| split]].
  - exact (proj1 (@decompress_terminates unit (stored_engine 1) gnutls_constants
                    (fun zs => Z.to_nat (avail_in zs)) (Some 1%positive)
                    [x01; x02; x03] 3 None 100 w (or_introl Hprog))).
  - do 2 eexists. vm_compute. reflexivity.
  - exact (proj1 (@decompress_terminates unit idle_engine gnutls_constants
                    (fun _ => 0%nat) (Some 1%positive)
                    [x01] 1 None 100 w2 (or_intror Hrefuse))).
  - eexists. vm_compute. reflexivity.
Defined.

(** The two provisos of the termination result cannot both be dropped:
    with the idle engine every pass ends with [Z_OK] and the input byte
    unconsumed, so the loop goes round again as long as the allocator
    grants the growth step; with an allocator that grants every request
    no number of passes is enough. *)
Lemma idle_engine_loops fuel :
  forall st : @loop_state unit,
    alloc_script (lw st) = [] ->
    (exists zs, heap (lw st) !! 2%positive = Some (Stream zs) /\ avail_in zs = 1) ->
    plain_ptr st <> Some 2%positive ->
    @inflate_loop unit idle_engine gnutls_constants fuel 2%positive 100 st = None.
Proof.
  induction fuel as [| fuel IH]; intros st Hscript (zs & Hz & Hin) Hptr; [done |].
  simpl. unfold inflate_pass, mhd_gtls_realloc_fast. rewrite Hscript.
  set (p := match plain_ptr st with
            | Some l => l
            | None => fresh (dom (heap (lw st)))
            end).
  assert (Hp : p <> 2%positive).
  { subst p. destruct (plain_ptr st) as [l |]; [congruence |].
    intros Heq. pose proof (is_fresh (dom (heap (lw st)))) as Hfr.
    rewrite Heq in Hfr. apply Hfr. by eapply elem_of_dom_2. }
  unfold stream_at. simpl. rewrite lookup_insert_ne, Hz by done. simpl.
  unfold loop_continues, continues_on_buf_error, continues_on_ok. simpl.
  rewrite Hin. simpl. apply IH; simpl.
  - done.
  - eexists. split; [apply lookup_insert_eq | done].
  - congruence.
Qed.

Lemma idle_engine_out_of_fuel fuel :
  @mhd_gtls_decompress unit idle_engine gnutls_constants fuel
    (Some 1%positive) [x01] 1 None 100 (world_with_handle idle_engine 1) = None.
Proof.
  unfold mhd_gtls_decompress.
  replace (1 >? to_size_t (100 + EXTRA_COMP_SIZE)) with false by (vm_compute; reflexivity).
  rewrite (@decompress_switch_on_handle unit idle_engine gnutls_constants fuel
             1%positive 2%positive blank_stream)
    by (split; vm_compute; reflexivity).
  rewrite idle_engine_loops; [done | done | | done].
  eexists. split; [apply lookup_insert_eq | vm_compute; reflexivity].
Qed.

(** C9, as stated, fails: the loop has exits that are none of the three the
    claim lists.
    - The stored-data engine, given no input, reports [Z_BUF_ERROR] with
      output space left, and the loop is left at a capacity of 512 with a
      maximum of 1000: buffer exhaustion, and the capacity bound has not
      stopped the growth.
    - The engine that moves one byte per call is given three bytes and an
      allocator that refuses its second request: the first pass ends with
      [Z_OK] and input left, so the loop goes round, and it is left from
      inside the second pass by the return with MEMORY_ERROR.
    - The run-length engine, given one byte that stands for 514 bytes,
      reports [Z_OK] with all input consumed and no output space remaining,
      and the loop is left. *)
Lemma decompress_termination_claim_fails :
  (exists zs st,
      @inflate_loop unit (stored_engine 100) gnutls_constants 1 2%positive 1000
        (decompress_entry 2%positive blank_stream [] 0
           (world_with_handle (stored_engine 100) 1))
      = Some (PassEnd Z_BUF_ERROR zs st) /\
      avail_out zs <> 0 /\ out_size st < 1000) /\
  (let w := World (heap (world_with_handle (stored_engine 1) 1)) [true; false] 0 0 [] in
   let st0 := decompress_entry 2%positive blank_stream [x01; x02; x03] 3 w in
   exists zs st w1,
     @inflate_pass unit (stored_engine 1) gnutls_constants 2%positive st0
     = PassEnd Z_OK zs st /\
     @loop_continues unit 100 Z_OK zs st = true /\
     @inflate_loop unit (stored_engine 1) gnutls_constants 2 2%positive 100 st0
     = Some (PassReturn (Returned (-25) None w1))) /\
  (exists zs st,
      @inflate_loop (bool * Z) (run_engine 514) gnutls_constants 1 2%positive 1000
        (decompress_entry 2%positive (ZStream [] 0 None 0 0 0 0 (Some (true, 0)))
           [x01] 1 (run_world 514 1))
      = Some (PassEnd Z_OK zs st) /\
      avail_in zs = 0 /\ avail_out zs = 0).
Proof.
  split; [| split].
  - do 2 eexists. split; [vm_compute; reflexivity |].
    split; [vm_compute; discriminate | vm_compute; reflexivity].
  - intros w st0. do 3 eexists.
    split; [vm_compute; reflexivity |].
    split; [vm_compute; reflexivity | vm_compute; reflexivity].
  - do 2 eexists. split; [vm_compute; reflexivity |].
    split; vm_compute; reflexivity.
Qed.

(** The allocator refuses a request: the second one of
    [mhd_gtls_comp_init], and the one of the second pass of the growth loop.
    Both calls fail and leave no block behind. *)
Example allocation_refused :
  @mhd_gtls_comp_init unit (stored_engine 1) gnutls_constants
    MHD_GNUTLS_COMP_DEFLATE 1 (World ∅ [true; false] 0 0 [])
  = (None, World ∅ [] 1 0 []) /\
  let w := world_with_handle (stored_engine 1) 1 in
  exists w',
    @mhd_gtls_decompress unit (stored_engine 1) gnutls_constants 3
      (Some 1%positive) [x01; x02; x03] 3 None 100
      (World (heap w) [true; false] 0 0 [])
    = Some (Returned (@GNUTLS_E_MEMORY_ERROR gnutls_constants) None w') /\
    dom (heap w') = dom (heap w) /\ alloc_failures w' = 1%nat /\
    transforms w' = 1%nat.
Proof.
  split; [vm_compute; reflexivity |].
  intros w. eexists. split; [vm_compute; reflexivity |].
  split; [vm_compute; reflexivity |]. split; reflexivity.
Qed.






(** ** The life of a handle *)

Section Lifecycle.
Context {engine_state : Type} `{!Zlib engine_state} `{!Gnutls}.

(** How a call of [mhd_gtls_comp_init] can end. *)
Lemma comp_init_cases method d (w : world engine_state) p w' :
  mhd_gtls_comp_init method d w = (p, w') ->
  let h := fresh (dom (heap w)) in
  transforms w' = transforms w /\
  ((p = None /\ heap w' = heap w) \/
   (p = Some h /\ method <> MHD_GNUTLS_COMP_DEFLATE /\
    alloc_failures w' = alloc_failures w /\
    heap w' = <[h := comp_hd_t_STRUCT method None]> (heap w)) \/
   (p = Some h /\ method = MHD_GNUTLS_COMP_DEFLATE /\
    alloc_failures w' = alloc_failures w /\
    exists z zs',
      heap w !! z = None /\ z <> h /\ init_engine_call d = (Z_OK, zs') /\
      heap w' = <[z := Stream zs']>
                  (<[h := comp_hd_t_STRUCT MHD_GNUTLS_COMP_DEFLATE (Some z)]> (heap w)))).
Proof.
  intros Hi h. unfold mhd_gtls_comp_init in Hi.
  destruct (gnutls_malloc _ w) as [q w1] eqn:Hm1.
  destruct (gnutls_malloc_cases _ _ _ _ Hm1)
    as [(-> & Hh1 & Hf1 & Ht1) | (-> & _ & Hh1 & Hf1 & Ht1)].
  { simplify_eq. eauto. }
  fold h in Hi, Hh1.
  assert (Hret : heap w !! h = None) by apply fresh_not_live.
  destruct method.
  - simplify_eq. simpl. split; [done |]. right; left.
    rewrite Hh1, insert_insert_eq. eauto.
  - simplify_eq. simpl. split; [done |]. right; left.
    rewrite Hh1, insert_insert_eq. eauto.
  - destruct (gnutls_malloc _ (store h _ w1)) as [q w3] eqn:Hm2.
    destruct (gnutls_malloc_cases _ _ _ _ Hm2)
      as [(-> & Hh3 & Hf3 & Ht3) | (-> & _ & Hh3 & Hf3 & Ht3)].
    { simplify_eq. simpl. split; [by rewrite Ht3 |]. left. split; [done |].
      rewrite Hh3. simpl. rewrite Hh1, insert_insert_eq. by apply delete_insert_id. }
    set (z := fresh (dom (heap (store h (comp_hd_t_STRUCT MHD_GNUTLS_COMP_DEFLATE None) w1))))
      in *.
    assert (Hz : heap (store h (comp_hd_t_STRUCT MHD_GNUTLS_COMP_DEFLATE None) w1) !! z
                 = None) by apply fresh_not_live.
    assert (Hne : z <> h).
    { intros Heq. simpl in Hz. rewrite Heq, lookup_insert_eq in Hz. done. }
    assert (Hzw : heap w !! z = None).
    { simpl in Hz. rewrite lookup_insert_ne, Hh1, lookup_insert_ne in Hz; done. }
    unfold init_engine_call.
    destruct (if d =? 0 then _ else _) as [err zs'] eqn:Hcall.
    destruct (negb (err =? Z_OK)) eqn:Herr; simplify_eq; simpl.
    + split; [by rewrite Ht3 |]. left. split; [done |].
      rewrite Hh3. simpl. rewrite Hh1.
      apply map_eq. intros i.
      destruct (decide (i = h)) as [-> | Hi1]; [by rewrite lookup_delete_eq, Hret |].
      rewrite lookup_delete_ne by done.
      destruct (decide (i = z)) as [-> | Hi2]; [by rewrite lookup_delete_eq, Hzw |].
      rewrite lookup_delete_ne by done. by rewrite !lookup_insert_ne.
    + split; [by rewrite Ht3 |]. right; right. split; [done |]. split; [done |].
      split; [by rewrite Hf3; simpl; rewrite Hf1 |].
      apply negb_false_iff, Z.eqb_eq in Herr. subst err.
      exists z, zs'. split; [done |]. split; [done |]. split; [done |].
      rewrite Hh3. simpl. rewrite Hh1.
      apply map_eq. intros i.
      destruct (decide (i = z)) as [-> | Hi2]; [by rewrite !lookup_insert_eq |].
      rewrite !(lookup_insert_ne _ z) by done.
      destruct (decide (i = h)) as [-> | Hi1]; [by rewrite !lookup_insert_eq |].
      by rewrite !lookup_insert_ne.
Qed.

Lemma gnutls_malloc_granted (o : object engine_state) (w : world engine_state) :
  allocation_succeeds w ->
  gnutls_malloc o w
  = (Some (fresh (dom (heap w))),
     World (<[fresh (dom (heap w)) := o]> (heap w)) (tail (alloc_script w))
       (alloc_failures w) (transforms w) (orphaned w)).
Proof.
  unfold allocation_succeeds, gnutls_malloc.
  destruct (alloc_script w) as [| [] s]; simpl; congruence.
Qed.

Lemma gnutls_malloc_orphaned (o : object engine_state) (w : world engine_state) p w1 :
  gnutls_malloc o w = (p, w1) -> orphaned w1 = orphaned w.
Proof.
  unfold gnutls_malloc. intros Hm.
  destruct (alloc_script w) as [| [] s]; by simplify_eq.
Qed.

(** A handle that is returned was made without releasing anything. *)
Lemma comp_init_orphaned method d (w : world engine_state) h w' :
  mhd_gtls_comp_init method d w = (Some h, w') -> orphaned w' = orphaned w.
Proof.
  unfold mhd_gtls_comp_init. intros Hi.
  destruct (gnutls_malloc _ w) as [[ret |] w1] eqn:Hm1; [| done].
  apply gnutls_malloc_orphaned in Hm1.
  destruct method; simplify_eq; simpl; try done.
  destruct (gnutls_malloc _ _) as [[z |] w3] eqn:Hm2; [| done].
  apply gnutls_malloc_orphaned in Hm2. simpl in Hm2.
  destruct (if d =? 0 then _ else _) as [err zs'].
  destruct (negb (err =? Z_OK)); simplify_eq. simpl. congruence.
Qed.

(** *** Teardown *)

(** The teardown of a live deflate handle whose engine pointer is a live
    stream. *)
Lemma comp_deinit_deflate h z zs d (w : world engine_state) :
  deflate_handle h z zs w ->
  mhd_gtls_comp_deinit (Some h) d w
  = Some (World (delete h (delete z (heap w))) (alloc_script w) (alloc_failures w)
            (transforms w)
            (orphaned w ++ held_state (Some (Stream (end_engine_call d zs).2)))).
Proof.
  intros [Hh Hz]. assert (Hhz : h <> z) by (intros ->; congruence).
  unfold mhd_gtls_comp_deinit, end_engine_call. rewrite Hh. unfold stream_at.
  rewrite Hz. destruct (if d =? 0 then deflateEnd zs else inflateEnd zs) as [e zs'].
  unfold gnutls_free_live. simpl.
  rewrite decide_True by (rewrite dom_insert_L; set_solver).
  simpl. rewrite decide_True.
  - rewrite lookup_insert_eq, lookup_delete_ne, lookup_insert_ne, Hh by done.
    simpl. by rewrite delete_insert_eq, app_nil_r.
  - apply elem_of_dom. rewrite lookup_delete_ne, lookup_insert_ne, Hh by done. eauto.
Qed.

(** The teardown of a live handle without an engine pointer. *)
Lemma comp_deinit_null_engine h algo d (w : world engine_state) :
  heap w !! h = Some (comp_hd_t_STRUCT algo None) ->
  mhd_gtls_comp_deinit (Some h) d w
  = Some (World (delete h (heap w)) (alloc_script w) (alloc_failures w) (transforms w)
            (orphaned w)).
Proof.
  intros Hh. unfold mhd_gtls_comp_deinit. rewrite Hh.
  assert (Hlive : h ∈ dom (heap w)) by (by eapply elem_of_dom_2).
  destruct algo; unfold gnutls_free_live; simpl; rewrite decide_True by done;
    simpl; by rewrite Hh, app_nil_r.
Qed.

(** After a teardown the handle is no longer live. *)
Lemma comp_deinit_gone h d (w w' : world engine_state) :
  mhd_gtls_comp_deinit (Some h) d w = Some w' -> heap w' !! h = None.
Proof.
  unfold mhd_gtls_comp_deinit. intros Hd.
  destruct (heap w !! h) as [[algo zhandle | |] |]; try done.
  destruct (match algo with MHD_GNUTLS_COMP_DEFLATE => _ | _ => _ end)
    as [w1 |]; [| done].
  destruct (gnutls_free_live zhandle w1) as [w2 |]; [| done].
  unfold gnutls_free_live in Hd. destruct (decide _); [| done].
  simplify_eq. apply lookup_delete_eq.
Qed.

(** X1. Teardown.  [mhd_gtls_comp_deinit] does nothing for a null handle.
    For a live deflate handle whose engine pointer is a live stream, a
    teardown that returns has called the End operation of the direction [d]
    on that stream, dropped its status, and released the block of the stream
    and the handle: neither is live afterwards, every other block is as it
    was, no allocation is requested and no transform is run.  The private
    data of the engine is the engine's to release: what the End operation
    leaves in the [state] field of the stream is orphaned with the block,
    and nothing else is.  For a handle without an engine pointer the handle
    alone is released.  For a deflate handle whose engine pointer is not a
    live stream the call is undefined. *)
Theorem comp_deinit_releases h z zs d (w : world engine_state) w' :
  deflate_handle h z zs w ->
  mhd_gtls_comp_deinit (Some h) d w = Some w' ->
  mhd_gtls_comp_deinit None d w = Some w /\
  heap w' !! h = None /\ heap w' !! z = None /\
  (forall l, l <> h -> l <> z -> heap w' !! l = heap w !! l) /\
  orphaned w' = orphaned w ++ held_state (Some (Stream (end_engine_call d zs).2)) /\
  (state (end_engine_call d zs).2 = None <-> orphaned w' = orphaned w) /\
  alloc_script w' = alloc_script w /\ alloc_failures w' = alloc_failures w /\
  transforms w' = transforms w /\
  (forall h0 algo w0,
      heap w !! h0 = Some (comp_hd_t_STRUCT algo None) ->
      mhd_gtls_comp_deinit (Some h0) d w = Some w0 ->
      heap w0 = delete h0 (heap w) /\ orphaned w0 = orphaned w) /\
  (forall h0 z0,
      heap w !! h0 = Some (comp_hd_t_STRUCT MHD_GNUTLS_COMP_DEFLATE (Some z0)) ->
      stream_at (Some z0) w = None ->
      mhd_gtls_comp_deinit (Some h0) d w = None).
Proof.
  intros Hh Hd. rewrite (comp_deinit_deflate _ _ _ _ _ Hh) in Hd.
  injection Hd as <-. cbn [heap orphaned alloc_script alloc_failures transforms].
  split; [done |]. split; [apply lookup_delete_eq |]. split.
  { destruct (decide (z = h)) as [-> | Hne]; [apply lookup_delete_eq |].
    rewrite lookup_delete_ne by done. apply lookup_delete_eq. }
  split; [by intros l ? ?; rewrite !lookup_delete_ne |].
  split; [done |]. split.
  { destruct (state (end_engine_call d zs).2) as [s |]; simpl.
    - split; [done |]. intros Heq.
      apply (f_equal length) in Heq. rewrite length_app in Heq. simpl in Heq. lia.
    - by rewrite app_nil_r. }
  split; [done |]. split; [done |]. split; [done |]. split.
  - intros h0 algo w0 Hh0 Hd0.
    rewrite (comp_deinit_null_engine _ _ _ _ Hh0) in Hd0. by injection Hd0 as <-.
  - intros h0 z0 Hh0 Hz0. unfold mhd_gtls_comp_deinit. by rewrite Hh0, Hz0.
Qed.

(** X2. A handle that [mhd_gtls_comp_init] made for the direction [d], torn
    down by [mhd_gtls_comp_deinit] with the same direction flag, leaves the
    blocks of the allocator exactly as they were before the handle was made:
    nothing that [init] allocated stays behind, nothing else is released.
    The private data that the engine set up at initialisation is orphaned
    exactly when the End operation of that direction leaves it in the
    [state] field; with an engine whose End operation clears the field
    nothing is orphaned. *)
Theorem comp_init_then_deinit method d (w : world engine_state) h w' w'' :
  mhd_gtls_comp_init method d w = (Some h, w') ->
  mhd_gtls_comp_deinit (Some h) d w' = Some w'' ->
  heap w'' = heap w /\ alloc_failures w'' = alloc_failures w /\
  transforms w'' = transforms w /\
  orphaned w''
  = orphaned w ++
    match method with
    | MHD_GNUTLS_COMP_DEFLATE =>
        held_state (Some (Stream (end_engine_call d (init_engine_call d).2).2))
    | _ => []
    end /\
  (state (end_engine_call d (init_engine_call d).2).2 = None ->
   orphaned w'' = orphaned w).
Proof.
  intros Hi Hd. pose proof (comp_init_orphaned _ _ _ _ _ Hi) as Ho.
  destruct (comp_init_cases _ _ _ _ _ Hi) as (Ht & Hcase).
  assert (Hfresh : heap w !! fresh (dom (heap w)) = None) by apply fresh_not_live.
  destruct Hcase as [[? _] | [(Hp & Hm & Hf & Hheap) | (Hp & Hm & Hf & z & zs' & Hz & Hne & Hcall & Hheap)]];
    [done | |]; simplify_eq.
  - rewrite (comp_deinit_null_engine _ method) in Hd
      by (rewrite Hheap; apply lookup_insert_eq).
    injection Hd as <-. cbn [heap orphaned alloc_script alloc_failures transforms].
    rewrite Hheap, Ho.
    split; [by apply delete_insert_id |]. split; [done |]. split; [done |].
    split; [| done]. destruct method; [| | done]; by rewrite app_nil_r.
  - rewrite (comp_deinit_deflate _ z zs') in Hd.
    2:{ split; [rewrite Hheap, lookup_insert_ne by done; apply lookup_insert_eq
               | rewrite Hheap; apply lookup_insert_eq]. }
    injection Hd as <-. cbn [heap orphaned alloc_script alloc_failures transforms].
    rewrite Hcall, Ho. cbn [snd].
    split; [| split; [done | split; [done | split; [done |]]]].
    + rewrite Hheap. apply map_eq. intros i.
      destruct (decide (i = fresh (dom (heap w)))) as [-> | Hi1];
        [by rewrite lookup_delete_eq, Hfresh |].
      rewrite lookup_delete_ne by done.
      destruct (decide (i = z)) as [-> | Hi2]; [by rewrite lookup_delete_eq, Hz |].
      rewrite lookup_delete_ne by done. by rewrite !lookup_insert_ne.
    + intros ->. by rewrite app_nil_r.
Qed.

(** X3. [mhd_gtls_comp_init] touches nothing that exists: every object that
    was live keeps its contents, no transform is run, and a handle that is
    returned is a location that was not live before. *)
Theorem comp_init_frame method d (w : world engine_state) p w' :
  mhd_gtls_comp_init method d w = (p, w') ->
  (forall l, l ∈ dom (heap w) -> heap w' !! l = heap w !! l) /\
  transforms w' = transforms w /\
  (forall h, p = Some h -> (h ∉ dom (heap w)) /\ is_Some (heap w' !! h)).
Proof.
  intros Hi. destruct (comp_init_cases _ _ _ _ _ Hi) as (Ht & Hcase).
  pose proof (is_fresh (dom (heap w))) as Hfr.
  destruct Hcase as [[-> Hheap] | [(-> & Hm & Hf & Hheap) | (-> & Hm & Hf & z & zs' & Hz & Hne & _ & Hheap)]].
  - split; [by intros l _; rewrite Hheap |]. split; [done |]. by intros h.
  - split; [| split; [done |]].
    + intros l Hl. rewrite Hheap, lookup_insert_ne; [done |]. by intros <-.
    + intros h ?. simplify_eq. split; [done |]. rewrite Hheap, lookup_insert_eq. eauto.
  - split; [| split; [done |]].
    + intros l Hl. apply elem_of_dom in Hl as [o Ho].
      rewrite Hheap, !lookup_insert_ne; [done | |].
      * intros <-. by apply Hfr, elem_of_dom.
      * intros <-. congruence.
    + intros h ?. simplify_eq. split; [done |].
      rewrite Hheap, lookup_insert_ne, lookup_insert_eq by done. eauto.
Qed.

(** X4. For the deflate algorithm, when the allocator grants the two
    requests, [mhd_gtls_comp_init] returns a handle exactly when the engine's
    initialisation reports [Z_OK]: [deflateInit2] with the level, window
    bits and memory level of the algorithm tables for the compress
    direction, [inflateInit2] with the window bits for the decompress
    direction.  The handle it returns is a live deflate handle whose stream
    is the one the engine initialised. *)
Theorem comp_init_deflate_succeeds_iff d (w : world engine_state) :
  allocation_succeeds w -> head (tail (alloc_script w)) <> Some false ->
  (is_Some (mhd_gtls_comp_init MHD_GNUTLS_COMP_DEFLATE d w).1 <->
   (init_engine_call d).1 = Z_OK) /\
  (forall h, (mhd_gtls_comp_init MHD_GNUTLS_COMP_DEFLATE d w).1 = Some h ->
     exists z,
       deflate_handle h z (init_engine_call d).2
         (mhd_gtls_comp_init MHD_GNUTLS_COMP_DEFLATE d w).2).
Proof.
  intros Ha1 Ha2.
  destruct (mhd_gtls_comp_init MHD_GNUTLS_COMP_DEFLATE d w) as [p w'] eqn:Hi.
  simpl. split.
  - split.
    + intros [h ->]. destruct (comp_init_cases _ _ _ _ _ Hi) as (_ & Hcase).
      destruct Hcase as [[? _] | [(_ & Hm & _) | (_ & _ & _ & z & zs' & _ & _ & Hcall & _)]];
        [done | done |]. by rewrite Hcall.
    + intros Hok. unfold mhd_gtls_comp_init in Hi.
      rewrite (gnutls_malloc_granted _ w Ha1) in Hi.
      rewrite gnutls_malloc_granted in Hi by (unfold allocation_succeeds; exact Ha2).
      unfold init_engine_call in Hok.
      destruct (if d =? 0 then _ else _) as [err zs']. simpl in Hok. subst err.
      simpl in Hi. simplify_eq. eauto.
  - intros h ->. destruct (comp_init_cases _ _ _ _ _ Hi) as (_ & Hcase).
    destruct Hcase as [[? _] | [(_ & Hm & _) | (Hp & _ & _ & z & zs' & _ & Hne & Hcall & Hheap)]];
      [done | done |].
    exists z. rewrite Hcall. simpl. simplify_eq. split.
    + rewrite Hheap, lookup_insert_ne by done. apply lookup_insert_eq.
    + rewrite Hheap. apply lookup_insert_eq.
Qed.

(** X5. A handle made for any algorithm but deflate (the null algorithm)
    carries no engine; [mhd_gtls_compress] and, for an input within the size
    bound, [mhd_gtls_decompress] answer it with INTERNAL_ERROR and leave the
    world and the caller's pointer as they were. *)
Theorem null_method_handle_is_refused method d (w : world engine_state) h w'
    data size out max fuel :
  method <> MHD_GNUTLS_COMP_DEFLATE ->
  mhd_gtls_comp_init method d w = (Some h, w') ->
  heap w' !! h = Some (comp_hd_t_STRUCT method None) /\
  mhd_gtls_compress (Some h) data size out max w'
    = Returned GNUTLS_E_INTERNAL_ERROR out w' /\
  (size <= to_size_t (max + EXTRA_COMP_SIZE) ->
   mhd_gtls_decompress fuel (Some h) data size out max w'
     = Some (Returned GNUTLS_E_INTERNAL_ERROR out w')).
Proof.
  intros Hm Hi. destruct (comp_init_cases _ _ _ _ _ Hi) as (_ & Hcase).
  destruct Hcase as [[? _] | [(Hp & _ & _ & Hheap) | (_ & ? & _)]]; [done | | done].
  simplify_eq.
  assert (Hh : heap w' !! fresh (dom (heap w)) = Some (comp_hd_t_STRUCT method None)).
  { rewrite Hheap. apply lookup_insert_eq. }
  split; [done |]. split.
  - unfold mhd_gtls_compress, compress_switch. rewrite Hh. by destruct method.
  - intros Hle. unfold mhd_gtls_decompress, decompress_switch.
    destruct (size >? _) eqn:Hgt; [lia |]. rewrite Hh. by destruct method.
Qed.

End Lifecycle.

(** ** The transforms on a live handle *)

Section Transforms.
Context {engine_state : Type} `{!Zlib engine_state} `{!Gnutls}.


Lemma deflate_handle_distinct h z zs (w : world engine_state) :
  deflate_handle h z zs w -> h <> z.
Proof. intros [Hh Hz] ->. congruence. Qed.

(** Releasing a buffer orphans nothing. *)
Lemma gnutls_free_buffer p d (w : world engine_state) :
  heap w !! p = Some (Buffer d) ->
  gnutls_free (Some p) w
  = World (delete p (heap w)) (alloc_script w) (alloc_failures w) (transforms w)
      (orphaned w).
Proof. intros Hp. unfold gnutls_free. by rewrite Hp, app_nil_r. Qed.

(** One call of [mhd_gtls_compress] on a live deflate handle, with the
    world it leaves written out. *)
Lemma compress_switch_explicit h z zs plain plain_size compressed
    (w : world engine_state) err zs2 bs :
  deflate_handle h z zs w -> allocation_succeeds w ->
  deflate (compress_stream zs plain plain_size (fresh (dom (heap w)))
             (compress_capacity plain_size)) Z_SYNC_FLUSH = (err, zs2, bs) ->
  let p := fresh (dom (heap w)) in
  let w2 :=
    World (<[z := Stream zs2]>
             (<[p := Buffer (list_inserts 0 bs
                       (replicate (Z.to_nat (compress_capacity plain_size)) x00))]>
                (heap w)))
      (tail (alloc_script w)) (alloc_failures w) (S (transforms w)) (orphaned w) in
  z <> p /\
  compress_switch h plain plain_size compressed w
  = if negb (err =? Z_OK) || negb (avail_in zs2 =? 0)
    then Return (Returned GNUTLS_E_COMPRESSION_FAILED None (gnutls_free (Some p) w2))
    else Break (to_int (to_uLongf (compress_capacity plain_size - avail_out zs2)))
           (Some p) w2.
Proof.
  intros [Hh Hz] Halloc Hd p w2.
  assert (Hzp : z <> p).
  { intros ->. pose proof (fresh_not_live w). unfold p in Hz. congruence. }
  split; [done |].
  unfold compress_switch. rewrite Hh, (gnutls_malloc_granted _ w Halloc).
  fold p. fold p in Hd. unfold stream_at. cbn [heap].
  rewrite lookup_insert_ne, Hz by done. rewrite Hd. unfold engine_effect, compress_stream, set_output, w2.
  cbn [next_out heap alloc_script alloc_failures transforms orphaned].
  unfold store_bytes. rewrite lookup_insert_eq, insert_insert_eq. done.
Qed.

(** How a call of [mhd_gtls_compress] on a live deflate handle ends. *)
Lemma compress_on_handle h z zs plain plain_size compressed max_comp_size
    (w : world engine_state) r out w' :
  deflate_handle h z zs w ->
  mhd_gtls_compress (Some h) plain plain_size compressed max_comp_size w
    = Returned r out w' ->
  exists zs',
    deflate_handle h z zs' w' /\
    untouched_except z w w' /\
    orphaned w' = orphaned w /\
    ((out = None /\ dom (heap w') = dom (heap w) /\
      (r = GNUTLS_E_MEMORY_ERROR /\ zs' = zs /\ transforms w' = transforms w \/
       r = GNUTLS_E_COMPRESSION_FAILED /\ transforms w' = S (transforms w))) \/
     (out = Some (fresh (dom (heap w))) /\
      heap w' !! fresh (dom (heap w))
      = Some (Buffer
                (list_inserts 0
                   (deflate (compress_stream zs plain plain_size (fresh (dom (heap w)))
                               (compress_capacity plain_size)) Z_SYNC_FLUSH).2
                   (replicate (Z.to_nat (compress_capacity plain_size)) x00))) /\
      dom (heap w') = {[fresh (dom (heap w))]} ∪ dom (heap w) /\
      to_size_t r <= max_comp_size /\ transforms w' = S (transforms w))).
Proof.
  intros Hh Hc. pose proof (deflate_handle_distinct _ _ _ _ Hh) as Hhz.
  pose proof Hh as [Hh1 Hz1].
  pose proof (is_fresh (dom (heap w))) as Hfr.
  pose proof (elem_of_dom_2 _ _ _ Hh1) as Hhd.
  pose proof (elem_of_dom_2 _ _ _ Hz1) as Hzd.
  destruct (gnutls_malloc (Buffer (replicate (Z.to_nat (compress_capacity plain_size)) x00)) w)
    as [q w1] eqn:Hm.
  pose proof (gnutls_malloc_orphaned _ _ _ _ Hm) as Ho1.
  destruct (gnutls_malloc_cases _ _ _ _ Hm)
    as [(-> & Hheap & Hf & Ht) | (-> & Halloc & _)].
  - unfold mhd_gtls_compress, compress_switch in Hc. rewrite Hh1, Hm in Hc.
    simplify_eq. exists zs.
    split; [by unfold deflate_handle; rewrite Hheap |].
    split; [by intros l _ _; rewrite Hheap |]. split; [done |].
    left. rewrite Hheap. eauto 10.
  - destruct (deflate (compress_stream zs plain plain_size (fresh (dom (heap w)))
                         (compress_capacity plain_size)) Z_SYNC_FLUSH)
      as [[err zs2] bs] eqn:Hd.
    destruct (compress_switch_explicit h z zs plain plain_size compressed w _ _ _
                Hh Halloc Hd) as (Hzp & Hs).
    cbv zeta in Hs. set (p := fresh (dom (heap w))) in *.
    set (buf := list_inserts 0 bs
                  (replicate (Z.to_nat (compress_capacity plain_size)) x00)) in *.
    set (w2 := World (<[z := Stream zs2]> (<[p := Buffer buf]> (heap w)))
                 (tail (alloc_script w)) (alloc_failures w) (S (transforms w))
                 (orphaned w)) in *.
    assert (Hhp : h <> p) by (intros ->; done).
    assert (Hframe : forall l, l <> z -> l <> p -> heap w2 !! l = heap w !! l).
    { intros l ? ?. unfold w2. cbn [heap]. by rewrite !lookup_insert_ne. }
    assert (Hzs2 : heap w2 !! z = Some (Stream zs2)) by apply lookup_insert_eq.
    assert (Hbuf : heap w2 !! p = Some (Buffer buf)).
    { unfold w2. cbn [heap]. rewrite lookup_insert_ne by done. apply lookup_insert_eq. }
    assert (Hdom2 : dom (heap w2) = {[p]} ∪ dom (heap w)).
    { unfold w2. cbn [heap]. rewrite !dom_insert_L. set_solver. }
    assert (Hfail : deflate_handle h z zs2 (gnutls_free (Some p) w2) /\
                    untouched_except z w (gnutls_free (Some p) w2) /\
                    orphaned (gnutls_free (Some p) w2) = orphaned w /\
                    dom (heap (gnutls_free (Some p) w2)) = dom (heap w) /\
                    transforms (gnutls_free (Some p) w2) = S (transforms w)).
    { rewrite (gnutls_free_buffer _ _ _ Hbuf).
      unfold deflate_handle, untouched_except.
      cbn [heap orphaned transforms]. split; [split |]; [| | split; [| split; [| split]]].
      - rewrite lookup_delete_ne by done. by rewrite Hframe.
      - by rewrite lookup_delete_ne.
      - intros l Hl Hlz. assert (l <> p) by (intros ->; done).
        rewrite lookup_delete_ne by done. by apply Hframe.
      - done.
      - rewrite dom_delete_L, Hdom2. set_solver.
      - done. }
    unfold mhd_gtls_compress in Hc. rewrite Hs in Hc.
    destruct (negb (err =? Z_OK) || negb (avail_in zs2 =? 0)).
    { simplify_eq. destruct Hfail as (? & ? & ? & ? & ?). exists zs2.
      split; [done |]. split; [done |]. split; [done |]. left. eauto 10. }
    destruct (to_size_t _ >? max_comp_size) eqn:Hpost; simplify_eq.
    { destruct Hfail as (? & ? & ? & ? & ?). exists zs2.
      split; [done |]. split; [done |]. split; [done |]. left. eauto 10. }
    exists zs2. split; [split; [by rewrite Hframe | done] |].
    split.
    { intros l Hl Hlz. assert (l <> p) by (intros ->; done). by apply Hframe. }
    split; [done |]. right. split; [done |]. split; [done |].
    split; [done |]. split; [lia | done].
Qed.

(** X6. A call of [mhd_gtls_compress] on a live deflate handle that
    returns, with an engine that writes no more than the output space it is
    given: the handle is still a live deflate handle with the same engine
    stream location, nothing that was live has changed except the engine
    stream, no engine state is orphaned, the engine has been run at most
    once, and the live blocks are those that were live before, plus the
    output buffer when one is handed over.  The engine was given the whole
    buffer, from its first byte, as output space (at most [2 ^ 32 - 1]
    bytes of it), so what it wrote lies inside the buffer: the buffer starts
    with exactly the bytes the engine handed back. *)
Theorem compress_keeps_handle_usable h z zs plain plain_size compressed
    max_comp_size (w : world engine_state) r out w' :
  writes_within_output deflate ->
  deflate_handle h z zs w ->
  mhd_gtls_compress (Some h) plain plain_size compressed max_comp_size w
    = Returned r out w' ->
  (exists zs', deflate_handle h z zs' w') /\
  untouched_except z w w' /\
  orphaned w' = orphaned w /\
  (transforms w' = transforms w \/ transforms w' = S (transforms w)) /\
  match out with
  | None => dom (heap w') = dom (heap w)
  | Some p =>
      (p ∉ dom (heap w)) /\ dom (heap w') = {[p]} ∪ dom (heap w) /\
      let zs1 := compress_stream zs plain plain_size p (compress_capacity plain_size) in
      let bs := (deflate zs1 Z_SYNC_FLUSH).2 in
      next_out zs1 = Some (p, 0) /\
      0 <= avail_out zs1 <= compress_capacity plain_size /\
      Z.of_nat (length bs) <= avail_out zs1 /\
      length (buffer_at out w') = Z.to_nat (compress_capacity plain_size) /\
      take (length bs) (buffer_at out w') = bs
  end.
Proof.
  intros Hwrite Hh Hc.
  destruct (compress_on_handle h z zs plain plain_size compressed max_comp_size w
              r out w' Hh Hc) as (zs' & Hh' & Hfr & Ho & Hcase).
  split; [eauto |]. split; [done |]. split; [done |].
  destruct Hcase as [(-> & Hdom & [(_ & _ & Ht) | (_ & Ht)])
                    | (-> & Hbuf & Hdom & _ & Ht)].
  - split; [by left | done].
  - split; [by right | done].
  - split; [by right |]. split; [apply is_fresh |]. split; [done |].
    cbv zeta. set (p := fresh (dom (heap w))) in *.
    set (zs1 := compress_stream zs plain plain_size p (compress_capacity plain_size)) in *.
    assert (Hcap : 0 <= compress_capacity plain_size < 2 ^ 64)
      by apply to_uLongf_range.
    assert (Hav : avail_out zs1 = to_uInt (compress_capacity plain_size)) by done.
    pose proof (to_uInt_range (compress_capacity plain_size)) as Hur.
    pose proof (to_uInt_le (compress_capacity plain_size) ltac:(lia)) as Hule.
    pose proof (Hwrite zs1 Z_SYNC_FLUSH ltac:(lia)) as Hlen.
    split; [done |]. split; [lia |]. split; [done |].
    simpl. rewrite Hbuf.
    split; [by rewrite length_inserts, length_replicate |].
    apply (written_prefix [] (deflate zs1 Z_SYNC_FLUSH).2); [done |].
    rewrite length_replicate. simpl. lia.
Qed.

(** *** What the growth loop leaves alone *)







(** *** The cursor over the whole loop *)








(** X8. A length returned by [mhd_gtls_decompress] means that the input was
    used up: the loop was left with the engine reporting [Z_OK] and no
    input left in the stream.  The length is the capacity of the buffer
    handed over less the output space the engine has left, and the input
    size had passed the size check. *)
Theorem decompress_success_means_input_consumed fuel h z zs0 compressed
    compressed_size plain max_record_size (w : world engine_state) r out w' :
  error_codes_negative -> deflate_handle h z zs0 w ->
  mhd_gtls_decompress fuel (Some h) compressed compressed_size plain
    max_record_size w = Some (Returned r out w') ->
  0 <= r ->
  compressed_size <= to_size_t (max_record_size + EXTRA_COMP_SIZE) /\
  exists zs p d,
    heap w' !! z = Some (Stream zs) /\ avail_in zs = 0 /\
    out = Some p /\ heap w' !! p = Some (Buffer d) /\
    r = to_int (to_uLongf (Z.of_nat (length d) - avail_out zs)) /\
    r <= max_record_size.
Proof.
  intros (Hmem & Hdec & Hcomp & Hint) Hh Hd Hr.
  unfold mhd_gtls_decompress in Hd.
  destruct (compressed_size >? _) eqn:Hsize; [simplify_eq; lia |].
  split; [lia |].
  rewrite (decompress_switch_on_handle _ _ _ _ _ _ _ _ _ Hh) in Hd.
  destruct Hh as [_ Hz].
  pose proof (decompress_entry_invariant z zs0 compressed compressed_size w Hz)
    as Hinv.
  destruct (inflate_loop _ _ _ _) as [res |] eqn:Hl; [| done].
  pose proof (inflate_loop_memory _ _ _ _ _ _ Hinv Hl) as Hmemo.
  destruct res as [[r0 out0 w1 |] | err zs st]; [| done |].
  { simplify_eq. destruct Hmemo as (? & _). lia. }
  destruct Hmemo as (_ & Hexit & _ & _ & _ & _ & _ & Hzs).
  destruct (inflate_loop_reached _ _ _ _ _ _ _ Hl) as [k Hreach].
  destruct (pass_reached_capacity _ _ _ _ _ _ _ Hreach)
    as (Hrange & p & d & Hptr & Hbuf & Hlen).
  destruct (Z.eqb_spec err Z_OK) as [-> | Hne]; simpl in Hd; [| simplify_eq; lia].
  apply loop_exit_conditions in Hexit as [[_ Hin] | [[? _] | [? _]]]; try done.
  destruct (to_size_t _ >? max_record_size) eqn:Hpost; simplify_eq; [lia |].
  exists zs, p, d. rewrite Hlen. repeat split; try done.
  rewrite to_size_t_of_int in Hpost by done. lia.
Qed.

(** *** Counting the passes *)

(** X9. A call of [mhd_gtls_decompress] that returns a length has made
    some number [n >= 1] of passes through the growth loop, and each pass
    grew the buffer by 512 bytes, took one answer from the allocator and ran
    the engine once: the buffer handed over has
    [2 * compressed_size + 512 * n] bytes (modulo [2 ^ 64]), the engine was
    run [n] times, and no allocation failed. *)
Theorem decompress_pass_accounting fuel h z zs0 compressed compressed_size plain
    max_record_size (w : world engine_state) r out w' :
  error_codes_negative -> deflate_handle h z zs0 w ->
  mhd_gtls_decompress fuel (Some h) compressed compressed_size plain
    max_record_size w = Some (Returned r out w') ->
  0 <= r ->
  exists n,
    (1 <= n <= fuel)%nat /\
    Z.of_nat (length (buffer_at out w'))
    = (2 * compressed_size + 512 * Z.of_nat n) mod 2 ^ 64 /\
    transforms w' = (transforms w + n)%nat /\
    alloc_script w' = drop n (alloc_script w) /\
    alloc_failures w' = alloc_failures w.
Proof.
  intros (Hmem & Hdec & Hcomp & Hint) Hh Hd Hr.
  unfold mhd_gtls_decompress in Hd.
  destruct (compressed_size >? _) eqn:Hsize; [simplify_eq; lia |].
  rewrite (decompress_switch_on_handle _ _ _ _ _ _ _ _ _ Hh) in Hd.
  destruct (inflate_loop _ _ _ _) as [res |] eqn:Hl; [| done].
  destruct res as [o | err zs st].
  { destruct (inflate_loop_return _ _ _ _ _ Hl) as [-> | [w1 ->]]; simplify_eq. lia. }
  destruct (inflate_loop_nth _ _ _ _ _ _ _ Hl) as (n & Hn & Hnth & _).
  destruct (nth_pass_accounting _ _ _ _ _ _ _ Hnth) as (Hout & Ht & Hs & Hf).
  destruct (nth_pass_last _ _ _ _ _ _ _ Hnth) as [st1 Hp].
  destruct (inflate_pass_memory _ _ _ _ _ Hp)
    as (p & d & zs1 & _ & _ & Hout' & Hptr & _ & _ & Hbuf & Hlen & _).
  destruct (negb (err =? Z_OK)); [simplify_eq; lia |].
  destruct (to_size_t _ >? max_record_size); simplify_eq; [lia |].
  exists n. split; [done |]. simpl in *. split; [| done].
  rewrite Hptr. simpl. rewrite Hbuf, Hlen, Hout.
  rewrite Z2Nat.id by (apply Z.mod_pos_bound; lia).
  unfold to_uLongf, to_size_t, size_t_bits. rewrite Z.mod_mod by lia.
  rewrite Zplus_mod_idemp_l; f_equal; lia.
Qed.

(** *** The output cursor *)

(** X10. The output cursor stays inside the buffer.  The loop is entered
    with the cursor at 0 and no buffer.  With an engine that never gives
    back more output space than it got, and while the capacity stays below
    [2 ^ 31], a pass that starts with the cursor inside the buffer hands the
    engine the whole rest of the grown buffer, from the cursor on (at least
    512 bytes), keeps what lies before the cursor, and ends with the cursor
    advanced by the space the engine used, still inside the buffer. *)
Theorem growth_pass_keeps_cursor_in_buffer zhandle st err zs
    (st' : @loop_state engine_state) :
  keeps_output_space inflate ->
  cursor_in_buffer st -> out_size st + 512 < 2 ^ 31 ->
  inflate_pass zhandle st = PassEnd err zs st' ->
  (forall z zs0 compressed compressed_size (w : world engine_state),
      cursor_in_buffer (decompress_entry z zs0 compressed compressed_size w)) /\
  cursor_in_buffer st' /\
  exists p d zs_in bs,
    plain_ptr st' = Some p /\ heap (lw st') !! p = Some (Buffer d) /\
    Z.of_nat (length d) = out_size st + 512 /\
    heap (lw st) !! zhandle = Some (Stream zs_in) /\
    inflate (set_output zs_in (Some (p, cur_pos st))
               (Z.of_nat (length d) - cur_pos st)) Z_SYNC_FLUSH = (err, zs, bs) /\
    512 <= Z.of_nat (length d) - cur_pos st /\
    0 <= avail_out zs <= Z.of_nat (length d) - cur_pos st /\
    cur_pos st' = Z.of_nat (length d) - avail_out zs /\
    cur_pos st <= cur_pos st' /\
    take (Z.to_nat (cur_pos st)) d
    = take (Z.to_nat (cur_pos st)) (buffer_at (plain_ptr st) (lw st)).
Proof.
  intros Hkeep [[Hc0 Hc1] Hlen] Hcap Hp. split.
  { intros z zs0 compressed compressed_size w. unfold cursor_in_buffer. simpl.
    pose proof (to_uLongf_range (to_size_t (compressed_size + compressed_size))).
    lia. }
  destruct (inflate_pass_memory _ _ _ _ _ Hp)
    as (p & d & zs1 & _ & _ & Hout & Hptr & Hz0 & Hinf & Hbuf & Hlen' & _ & _ & _
        & _ & _ & Hcur & Hd).
  set (old := buffer_at (plain_ptr st) (lw st)) in *.
  assert (Hout' : out_size st' = out_size st + 512).
  { rewrite Hout. unfold to_uLongf, size_t_bits. apply Z.mod_small. lia. }
  rewrite Hout' in *.
  assert (Hwin : to_uInt (to_uLongf (out_size st + 512 - cur_pos st))
                 = out_size st + 512 - cur_pos st).
  { unfold to_uInt, to_uLongf, size_t_bits, uInt_bits.
    rewrite (Z.mod_small _ (2 ^ 64)) by lia. apply Z.mod_small. lia. }
  rewrite Hwin in Hinf.
  pose proof (Hkeep (set_output zs1 (Some (p, cur_pos st))
                       (out_size st + 512 - cur_pos st)) Z_SYNC_FLUSH) as Hk.
  rewrite Hinf in Hk. simpl in Hk. specialize (Hk ltac:(lia)).
  assert (Hcur' : cur_pos st' = out_size st + 512 - avail_out zs).
  { rewrite Hcur. unfold to_uLongf, size_t_bits.
    rewrite Z.mod_small by lia. apply to_int_id. lia. }
  assert (HlenZ : Z.of_nat (length d.1) = out_size st + 512) by lia.
  split.
  { unfold cursor_in_buffer. rewrite Hptr. simpl. rewrite Hbuf. lia. }
  exists p, d.1, zs1, d.2. rewrite HlenZ.
  split; [done |]. split; [done |]. split; [done |]. split; [done |].
  split; [done |]. split; [lia |]. split; [lia |]. split; [done |].
  split; [lia |].
  rewrite Hd. apply list_eq. intros i.
  destruct (decide (i < Z.to_nat (cur_pos st))%nat) as [Hi | Hi].
  - rewrite !lookup_take_lt by done. rewrite list_lookup_inserts_lt by done.
    rewrite <- (lookup_take_lt _ (Z.to_nat (cur_pos st))) by done.
    rewrite take_resize_le by lia. rewrite resize_le by lia.
    by rewrite lookup_take_lt.
  - by rewrite !lookup_take_ge by lia.
Qed.

(** *** Dangling handles and whole sessions *)

(** X11. After [mhd_gtls_comp_deinit] the handle dangles: a transform
    called with it dereferences a released block (undefined behaviour),
    and a second [mhd_gtls_comp_deinit] releases it twice. *)
Theorem handle_dangles_after_deinit h algo zhandle d (w : world engine_state) w'
    data size out max fuel d' :
  heap w !! h = Some (comp_hd_t_STRUCT algo zhandle) ->
  mhd_gtls_comp_deinit (Some h) d w = Some w' ->
  mhd_gtls_compress (Some h) data size out max w' = Undefined /\
  (size <= to_size_t (max + EXTRA_COMP_SIZE) ->
   mhd_gtls_decompress fuel (Some h) data size out max w' = Some Undefined) /\
  mhd_gtls_comp_deinit (Some h) d' w' = None.
Proof.
  intros Hh Hd.
  pose proof (comp_deinit_gone _ _ _ _ Hd) as Hgone.
  split; [| split].
  - unfold mhd_gtls_compress, compress_switch. by rewrite Hgone.
  - intros Hle. unfold mhd_gtls_decompress, decompress_switch.
    destruct (size >? _) eqn:Hgt; [lia |]. by rewrite Hgone.
  - unfold mhd_gtls_comp_deinit. by rewrite Hgone.
Qed.

(** A handle made for the deflate algorithm, as memory has it. *)
Lemma comp_init_deflate_handle d (w : world engine_state) h w1 :
  mhd_gtls_comp_init MHD_GNUTLS_COMP_DEFLATE d w = (Some h, w1) ->
  exists z,
    deflate_handle h z (init_engine_call d).2 w1 /\ h <> z /\
    (h ∉ dom (heap w)) /\ (z ∉ dom (heap w)) /\
    dom (heap w1) = {[h; z]} ∪ dom (heap w) /\
    (forall l, l ∈ dom (heap w) -> heap w1 !! l = heap w !! l) /\
    orphaned w1 = orphaned w.
Proof.
  intros Hi. pose proof (comp_init_orphaned _ _ _ _ _ Hi) as Ho.
  destruct (comp_init_cases _ _ _ _ _ Hi) as (_ & Hcase).
  destruct Hcase as [[? _] | [(_ & ? & _) | (Hp & _ & _ & z & zs & Hz & Hne & Hcall & Hheap)]];
    [done | done |].
  simplify_eq. pose proof (is_fresh (dom (heap w))) as Hfr.
  apply not_elem_of_dom in Hz. rewrite Hcall. cbn [snd].
  exists z. split; [split |].
  - rewrite Hheap, lookup_insert_ne by done. apply lookup_insert_eq.
  - rewrite Hheap. apply lookup_insert_eq.
  - split; [done |]. split; [done |]. split; [done |]. split; [| split; [| done]].
    + rewrite Hheap, !dom_insert_L. set_solver.
    + intros l Hl. rewrite Hheap, !lookup_insert_ne; [done | |]; by intros <-.
Qed.

(** What is left when a handle is torn down after one transform. *)
Lemma session_memory h z zs1 zs2 d (w w1 w2 w3 : world engine_state) out :
  deflate_handle h z zs1 w1 -> h <> z ->
  (h ∉ dom (heap w)) -> (z ∉ dom (heap w)) ->
  dom (heap w1) = {[h; z]} ∪ dom (heap w) ->
  (forall l, l ∈ dom (heap w) -> heap w1 !! l = heap w !! l) ->
  deflate_handle h z zs2 w2 -> untouched_except z w1 w2 ->
  match out with
  | None => dom (heap w2) = dom (heap w1)
  | Some p => (p ∉ dom (heap w1)) /\ dom (heap w2) = {[p]} ∪ dom (heap w1)
  end ->
  mhd_gtls_comp_deinit (Some h) d w2 = Some w3 ->
  (forall l, l ∈ dom (heap w) -> heap w3 !! l = heap w !! l) /\
  match out with
  | None => dom (heap w3) = dom (heap w)
  | Some p =>
      (p ∉ dom (heap w)) /\ dom (heap w3) = {[p]} ∪ dom (heap w) /\
      heap w3 !! p = heap w2 !! p
  end /\
  orphaned w3 = orphaned w2 ++ held_state (Some (Stream (end_engine_call d zs2).2)).
Proof.
  intros Hh1 Hhz Hh0 Hz0 Hdom1 Hsame Hh2 Hfr Hout Hd.
  rewrite (comp_deinit_deflate _ _ _ _ _ Hh2) in Hd. injection Hd as <-.
  cbn [heap orphaned]. split; [| split; [| done]].
  - intros l Hl. assert (l <> h) by (by intros ->). assert (l <> z) by (by intros ->).
    rewrite !lookup_delete_ne by done. rewrite Hfr; [by apply Hsame | | done].
    rewrite Hdom1. set_solver.
  - rewrite !dom_delete_L. destruct out as [p |].
    + destruct Hout as [Hp Hdom2]. rewrite Hdom2, Hdom1. rewrite Hdom1 in Hp.
      split; [set_solver |]. split; [set_solver |].
      rewrite !lookup_delete_ne; [done | |]; intros <-; set_solver.
    + rewrite Hout, Hdom1. set_solver.
Qed.

(** X12. A compress session.  A handle made by [mhd_gtls_comp_init] for the
    deflate algorithm and the compress direction ([d = 0]), used for one
    [mhd_gtls_compress] that returns, with an engine that writes no more
    than the output space it is given, and torn down by
    [mhd_gtls_comp_deinit] with the same direction flag.  Everything that was
    live before the session is unchanged, and the only block of the
    allocator that the session leaves behind is the output buffer, when the
    transform handed one over.  Of the engine's private data, the session
    orphans exactly what [deflateEnd] leaves in the [state] field of the
    stream as the transform left it: nothing, when [deflateEnd] clears the
    field. *)
Theorem compress_session_memory (w : world engine_state) h w1
    plain plain_size compressed max_comp_size r out w2 w3 :
  writes_within_output deflate ->
  mhd_gtls_comp_init MHD_GNUTLS_COMP_DEFLATE 0 w = (Some h, w1) ->
  mhd_gtls_compress (Some h) plain plain_size compressed max_comp_size w1
    = Returned r out w2 ->
  mhd_gtls_comp_deinit (Some h) 0 w2 = Some w3 ->
  (forall l, l ∈ dom (heap w) -> heap w3 !! l = heap w !! l) /\
  match out with
  | None => dom (heap w3) = dom (heap w)
  | Some p =>
      (p ∉ dom (heap w)) /\ dom (heap w3) = {[p]} ∪ dom (heap w) /\
      heap w3 !! p = heap w2 !! p
  end /\
  exists z zs2,
    deflate_handle h z zs2 w2 /\
    orphaned w3 = orphaned w ++ held_state (Some (Stream (deflateEnd zs2).2)) /\
    (state (deflateEnd zs2).2 = None -> orphaned w3 = orphaned w).
Proof.
  intros Hwrite Hi Hc Hd.
  destruct (comp_init_deflate_handle _ _ _ _ Hi)
    as (z & Hh1 & Hhz & Hh0 & Hz0 & Hdom1 & Hsame & Ho1).
  destruct (compress_on_handle h z _ plain plain_size compressed max_comp_size w1
              r out w2 Hh1 Hc) as (zs2 & Hh2 & Hfr & Ho2 & Hcase).
  assert (Hout : match out with
                 | None => dom (heap w2) = dom (heap w1)
                 | Some p => (p ∉ dom (heap w1)) /\ dom (heap w2) = {[p]} ∪ dom (heap w1)
                 end).
  { destruct Hcase as [(-> & Hdom & _) | (-> & _ & Hdom & _)]; [done |].
    split; [apply is_fresh | done]. }
  destruct (session_memory h z _ zs2 0 w w1 w2 w3 out Hh1 Hhz Hh0 Hz0 Hdom1 Hsame
              Hh2 Hfr Hout Hd) as (Hkept & Hleft & Ho3).
  split; [done |]. split; [done |]. exists z, zs2. split; [done |].
  assert (Heq : orphaned w3
                = orphaned w ++ held_state (Some (Stream (deflateEnd zs2).2)))
    by (rewrite Ho3, Ho2, Ho1; done).
  split; [done |]. intros Hnone. rewrite Heq. simpl. rewrite Hnone.
  apply app_nil_r.
Qed.



End Transforms.

(** ** The lifecycle and the transforms on concrete inputs *)

(** The run-length engine keeps to the contracts on the output space. *)
Lemma run_engine_output_space run :
  keeps_output_space (@inflate (bool * Z) (run_engine run)) /\
  writes_within_output (@deflate (bool * Z) (run_engine run)) /\
  writes_within_output (@inflate (bool * Z) (run_engine run)).
Proof.
  split; [| split]; intros zs flush Hout; simpl;
    destruct (state zs) as [[[] owed] |]; simpl;
    rewrite ?length_take, ?length_replicate; lia.
Qed.

(** Tearing down a decompress handle of the run-length engine releases the
    handle and its stream, and the engine releases its private data. *)
Lemma comp_deinit_releases_witness :
  let w := run_world 600 1 in
  let zs := ZStream [] 0 None 0 0 0 0 (Some (true, 0)) in
  exists w',
    (deflate_handle 1%positive 2%positive zs w /\
     @mhd_gtls_comp_deinit (bool * Z) (run_engine 600) (Some 1%positive) 1 w
     = Some w') /\
    heap w' !! 1%positive = None /\ heap w' !! 2%positive = None /\
    orphaned w' = orphaned w.
Proof.
  intros w zs.
  assert (Hh : deflate_handle 1%positive 2%positive zs w)
    by (split; vm_compute; reflexivity).
  destruct (@mhd_gtls_comp_deinit (bool * Z) (run_engine 600) (Some 1%positive) 1 w)
    as [w' |] eqn:Hd; [| vm_compute in Hd; discriminate].
  destruct (@comp_deinit_releases (bool * Z) (run_engine 600) 1%positive 2%positive
              zs 1 w w' Hh Hd) as (_ & Hg1 & Hg2 & _ & _ & Hiff & _).
  exists w'. split; [split; [exact Hh | reflexivity] |].
  split; [exact Hg1 |]. split; [exact Hg2 |].
  apply (proj1 Hiff). vm_compute. reflexivity.
Defined.

(** A decompress handle of the run-length engine made in the empty world
    and torn down with the same flag leaves the empty heap and orphans
    nothing. *)
Lemma comp_init_then_deinit_witness :
  let w := World ∅ [] 0 0 [] in
  let w' := run_world 600 1 in
  exists w'',
    (@mhd_gtls_comp_init (bool * Z) (run_engine 600) gnutls_constants
       MHD_GNUTLS_COMP_DEFLATE 1 w = (Some 1%positive, w') /\
     @mhd_gtls_comp_deinit (bool * Z) (run_engine 600) (Some 1%positive) 1 w'
     = Some w'') /\
    heap w'' = heap w /\ orphaned w'' = orphaned w.
Proof.
  intros w w'.
  assert (Hi : @mhd_gtls_comp_init (bool * Z) (run_engine 600) gnutls_constants
                 MHD_GNUTLS_COMP_DEFLATE 1 w = (Some 1%positive, w'))
    by (vm_compute; reflexivity).
  destruct (@mhd_gtls_comp_deinit (bool * Z) (run_engine 600) (Some 1%positive) 1 w')
    as [w'' |] eqn:Hd; [| vm_compute in Hd; discriminate].
  destruct (@comp_init_then_deinit (bool * Z) (run_engine 600) gnutls_constants
              MHD_GNUTLS_COMP_DEFLATE 1 w 1%positive w' w'' Hi Hd)
    as (Hheap & _ & _ & _ & Hclean).
  exists w''. split; [split; [exact Hi | reflexivity] |].
  split; [exact Hheap |]. apply Hclean. vm_compute. reflexivity.
Defined.

(** The other flag.  A compress handle of the run-length engine torn down
    with the decompress flag: [inflateEnd] refuses the stream, the blocks
    of the handle and of the stream are released all the same, and the
    private data of the engine is orphaned. *)
Example mismatched_flag_orphans_engine_state :
  exists w'',
    @mhd_gtls_comp_deinit (bool * Z) (run_engine 600) (Some 1%positive) 1
      (run_world 600 0) = Some w'' /\
    heap w'' = ∅ /\ orphaned w'' = [(false, 0)].
Proof.
  eexists. split; [vm_compute; reflexivity |].
  split; vm_compute; reflexivity.
Qed.

(** A second handle made beside a live one leaves the first untouched. *)
Lemma comp_init_frame_witness :
  let w := world_with_handle (stored_engine 100) 0 in
  exists h w',
    @mhd_gtls_comp_init unit (stored_engine 100) gnutls_constants
      MHD_GNUTLS_COMP_DEFLATE 1 w = (Some h, w') /\
    (forall l, l ∈ dom (heap w) -> heap w' !! l = heap w !! l) /\
    transforms w' = transforms w /\ (h ∉ dom (heap w)).
Proof.
  intros w.
  destruct (@mhd_gtls_comp_init unit (stored_engine 100) gnutls_constants
              MHD_GNUTLS_COMP_DEFLATE 1 w) as [[h |] w'] eqn:Hi;
    [| vm_compute in Hi; discriminate].
  destruct (@comp_init_frame unit (stored_engine 100) gnutls_constants
              MHD_GNUTLS_COMP_DEFLATE 1 w (Some h) w' Hi) as (Hfr & Ht & Hh).
  exists h, w'. split; [reflexivity |]. split; [exact Hfr |]. split; [exact Ht |].
  exact (proj1 (Hh h eq_refl)).
Defined.

(** The stored-data engine initialises with [Z_OK], so in the empty world,
    whose allocator grants every request, a handle is returned. *)
Lemma comp_init_deflate_succeeds_iff_witness :
  allocation_succeeds empty_world /\
  head (tail (alloc_script empty_world)) <> Some false /\
  is_Some (@mhd_gtls_comp_init unit (stored_engine 100) gnutls_constants
             MHD_GNUTLS_COMP_DEFLATE 0 empty_world).1.
Proof.
  assert (H1 : allocation_succeeds empty_world) by (vm_compute; discriminate).
  assert (H2 : head (tail (alloc_script empty_world)) <> Some false)
    by (vm_compute; discriminate).
  split; [exact H1 |]. split; [exact H2 |].
  apply (proj1 (@comp_init_deflate_succeeds_iff unit (stored_engine 100)
                  gnutls_constants 0 empty_world H1 H2)).
  vm_compute. reflexivity.
Defined.

(** A handle for the null algorithm is refused by both transforms. *)
Lemma null_method_handle_is_refused_witness :
  let w' := snd (@mhd_gtls_comp_init unit (stored_engine 100) gnutls_constants
                   MHD_GNUTLS_COMP_NULL 0 empty_world) in
  (MHD_GNUTLS_COMP_NULL <> MHD_GNUTLS_COMP_DEFLATE /\
   @mhd_gtls_comp_init unit (stored_engine 100) gnutls_constants
     MHD_GNUTLS_COMP_NULL 0 empty_world = (Some 1%positive, w')) /\
  @mhd_gtls_compress unit (stored_engine 100) gnutls_constants
    (Some 1%positive) [x01] 1 None 100 w' = Returned (-59) None w' /\
  @mhd_gtls_decompress unit (stored_engine 100) gnutls_constants 1
    (Some 1%positive) [x01] 1 None 100 w' = Some (Returned (-59) None w').
Proof.
  intros w'.
  assert (Hm : MHD_GNUTLS_COMP_NULL <> MHD_GNUTLS_COMP_DEFLATE) by discriminate.
  assert (Hi : @mhd_gtls_comp_init unit (stored_engine 100) gnutls_constants
                 MHD_GNUTLS_COMP_NULL 0 empty_world = (Some 1%positive, w'))
    by (vm_compute; reflexivity).
  destruct (@null_method_handle_is_refused unit (stored_engine 100)
              gnutls_constants MHD_GNUTLS_COMP_NULL 0 empty_world 1%positive w'
              [x01] 1 None 100 1%nat Hm Hi) as (_ & Hc & Hd).
  split; [split; [exact Hm | exact Hi] |]. split; [exact Hc |].
  apply Hd. vm_compute. discriminate.
Defined.

(** Compressing three bytes with the run-length engine leaves its handle
    live; the three bytes are at the head of the buffer. *)
Lemma compress_keeps_handle_usable_witness :
  let w := run_world 600 0 in
  let zs := ZStream [] 0 None 0 0 0 0 (Some (false, 0)) in
  exists out w',
    (writes_within_output (@deflate (bool * Z) (run_engine 600)) /\
     deflate_handle 1%positive 2%positive zs w /\
     @mhd_gtls_compress (bool * Z) (run_engine 600) gnutls_constants
       (Some 1%positive) [x01; x02; x03] 3 None 100 w = Returned 3 out w') /\
    (exists zs', deflate_handle 1%positive 2%positive zs' w') /\
    untouched_except 2%positive w w' /\ orphaned w' = orphaned w /\
    take 3 (buffer_at out w') = [x01; x02; x03].
Proof.
  intros w zs.
  assert (Hw : writes_within_output (@deflate (bool * Z) (run_engine 600)))
    by exact (proj1 (proj2 (run_engine_output_space 600))).
  assert (Hh : deflate_handle 1%positive 2%positive zs w)
    by (split; vm_compute; reflexivity).
  destruct (@mhd_gtls_compress (bool * Z) (run_engine 600) gnutls_constants
              (Some 1%positive) [x01; x02; x03] 3 None 100 w)
    as [r out w' |] eqn:Hc; [| vm_compute in Hc; discriminate].
  assert (Hr : r = 3) by (vm_compute in Hc; congruence).
  subst r.
  destruct (@compress_keeps_handle_usable (bool * Z) (run_engine 600)
              gnutls_constants 1%positive 2%positive zs [x01; x02; x03] 3 None 100
              w 3 out w' Hw Hh Hc) as (Hh' & Hfr & Ho & _ & _).
  exists out, w'.
  split; [split; [exact Hw |]; split; [exact Hh | reflexivity] |].
  split; [exact Hh' |]. split; [exact Hfr |]. split; [exact Ho |].
  vm_compute in Hc. injection Hc as <- <-. vm_compute. reflexivity.
Defined.


(** Three bytes decompressed by the stored-data engine: the length 3 is
    returned and the stream has no input left. *)
Lemma decompress_success_means_input_consumed_witness :
  let w := world_with_handle (stored_engine 100) 1 in
  exists out w',
    (@error_codes_negative gnutls_constants /\
     deflate_handle 1%positive 2%positive blank_stream w /\
     @mhd_gtls_decompress unit (stored_engine 100) gnutls_constants 3
       (Some 1%positive) [x01; x02; x03] 3 None 100 w = Some (Returned 3 out w') /\
     0 <= 3) /\
    exists zs p d,
      heap w' !! 2%positive = Some (Stream zs) /\ avail_in zs = 0 /\
      out = Some p /\ heap w' !! p = Some (Buffer d) /\
      3 = to_int (to_uLongf (Z.of_nat (length d) - avail_out zs)).
Proof.
  intros w.
  assert (Hh : deflate_handle 1%positive 2%positive blank_stream w)
    by (split; vm_compute; reflexivity).
  destruct (@mhd_gtls_decompress unit (stored_engine 100) gnutls_constants 3
              (Some 1%positive) [x01; x02; x03] 3 None 100 w)
    as [[r out w' |] |] eqn:Hd;
    [| vm_compute in Hd; discriminate | vm_compute in Hd; discriminate].
  assert (Hr : r = 3) by (vm_compute in Hd; congruence).
  subst r.
  assert (H0 : 0 <= 3) by (vm_compute; discriminate).
  destruct (@decompress_success_means_input_consumed unit (stored_engine 100)
              gnutls_constants 3 1%positive 2%positive blank_stream
              [x01; x02; x03] 3 None 100 w 3 out w'
              gnutls_constants_negative Hh Hd H0)
    as (_ & zs & p & d & Hz & Hin & Hout & Hbuf & Hlen & _).
  exists out, w'.
  split; [split; [exact gnutls_constants_negative |];
          split; [exact Hh |]; split; [reflexivity | exact H0] |].
  exists zs, p, d. split; [exact Hz |]. split; [exact Hin |]. split; [exact Hout |].
  split; [exact Hbuf | exact Hlen].
Defined.

(** Three bytes decompressed by an engine that moves one byte per call: three
    passes, a buffer of [2 * 3 + 512 * 3] bytes. *)
Lemma decompress_pass_accounting_witness :
  let w := world_with_handle (stored_engine 1) 1 in
  exists out w',
    (@error_codes_negative gnutls_constants /\
     deflate_handle 1%positive 2%positive blank_stream w /\
     @mhd_gtls_decompress unit (stored_engine 1) gnutls_constants 3
       (Some 1%positive) [x01; x02; x03] 3 None 100 w = Some (Returned 3 out w') /\
     0 <= 3) /\
    exists n,
      (1 <= n <= 3)%nat /\
      Z.of_nat (length (buffer_at out w')) = (2 * 3 + 512 * Z.of_nat n) mod 2 ^ 64 /\
      transforms w' = (transforms w + n)%nat.
Proof.
  intros w.
  assert (Hh : deflate_handle 1%positive 2%positive blank_stream w)
    by (split; vm_compute; reflexivity).
  destruct (@mhd_gtls_decompress unit (stored_engine 1) gnutls_constants 3
              (Some 1%positive) [x01; x02; x03] 3 None 100 w)
    as [[r out w' |] |] eqn:Hd;
    [| vm_compute in Hd; discriminate | vm_compute in Hd; discriminate].
  assert (Hr : r = 3) by (vm_compute in Hd; congruence).
  subst r.
  assert (H0 : 0 <= 3) by (vm_compute; discriminate).
  destruct (@decompress_pass_accounting unit (stored_engine 1)
              gnutls_constants 3 1%positive 2%positive blank_stream
              [x01; x02; x03] 3 None 100 w 3 out w'
              gnutls_constants_negative Hh Hd H0)
    as (n & Hn & Hlen & Ht & _).
  exists out, w'.
  split; [split; [exact gnutls_constants_negative |];
          split; [exact Hh |]; split; [reflexivity | exact H0] |].
  exists n. split; [exact Hn |]. split; [exact Hlen | exact Ht].
Defined.

(** The first pass on three bytes: the engine gets the whole buffer of 518
    bytes, from offset 0. *)
Lemma growth_pass_keeps_cursor_in_buffer_witness :
  let w := world_with_handle (stored_engine 100) 1 in
  let st0 := @decompress_entry unit 2%positive blank_stream [x01; x02; x03] 3 w in
  exists err zs st',
    (keeps_output_space (@inflate unit (stored_engine 100)) /\
     cursor_in_buffer st0 /\ out_size st0 + 512 < 2 ^ 31 /\
     @inflate_pass unit (stored_engine 100) gnutls_constants 2%positive st0
     = PassEnd err zs st') /\
    cursor_in_buffer st' /\
    exists p d,
      plain_ptr st' = Some p /\ heap (lw st') !! p = Some (Buffer d) /\
      Z.of_nat (length d) = out_size st0 + 512 /\
      cur_pos st' = Z.of_nat (length d) - avail_out zs.
Proof.
  intros w st0.
  assert (Hk : keeps_output_space (@inflate unit (stored_engine 100)))
    by exact (proj2 (stored_engine_keeps_output_space 100)).
  assert (Hc : cursor_in_buffer st0)
    by (split; [split |]; vm_compute; discriminate).
  assert (Hs : out_size st0 + 512 < 2 ^ 31) by (vm_compute; reflexivity).
  destruct (@inflate_pass unit (stored_engine 100) gnutls_constants 2%positive st0)
    as [o | err zs st'] eqn:Hp; [vm_compute in Hp; discriminate |].
  destruct (@growth_pass_keeps_cursor_in_buffer unit (stored_engine 100)
              gnutls_constants 2%positive st0 err zs st' Hk Hc Hs Hp)
    as (_ & Hc' & p & d & zs_in & bs & Hptr & Hbuf & Hlen & _ & _ & _ & _ & Hcur & _).
  exists err, zs, st'.
  split; [split; [exact Hk |]; split; [exact Hc |]; split; [exact Hs | reflexivity] |].
  split; [exact Hc' |]. exists p, d.
  split; [exact Hptr |]. split; [exact Hbuf |]. split; [exact Hlen | exact Hcur].
Defined.

(** After the teardown of [world_with_handle], its handle dangles. *)
Lemma handle_dangles_after_deinit_witness :
  let w := world_with_handle (stored_engine 100) 0 in
  exists w',
    (heap w !! 1%positive
     = Some (comp_hd_t_STRUCT MHD_GNUTLS_COMP_DEFLATE (Some 2%positive)) /\
     @mhd_gtls_comp_deinit unit (stored_engine 100) (Some 1%positive) 0 w = Some w') /\
    @mhd_gtls_compress unit (stored_engine 100) gnutls_constants
      (Some 1%positive) [x01] 1 None 100 w' = Undefined /\
    @mhd_gtls_comp_deinit unit (stored_engine 100) (Some 1%positive) 0 w' = None.
Proof.
  intros w.
  assert (Hh : heap w !! 1%positive
               = Some (comp_hd_t_STRUCT MHD_GNUTLS_COMP_DEFLATE (Some 2%positive)))
    by (vm_compute; reflexivity).
  destruct (@mhd_gtls_comp_deinit unit (stored_engine 100) (Some 1%positive) 0 w)
    as [w' |] eqn:Hd; [| vm_compute in Hd; discriminate].
  destruct (@handle_dangles_after_deinit unit (stored_engine 100) gnutls_constants
              1%positive MHD_GNUTLS_COMP_DEFLATE (Some 2%positive) 0 w w'
              [x01] 1 None 100 1%nat 0 Hh Hd) as (Hc & _ & Hd2).
  exists w'. split; [split; [exact Hh | reflexivity] |].
  split; [exact Hc | exact Hd2].
Defined.

(** A compress session of the run-length engine in the empty world: the
    output buffer is the one block left, and nothing is orphaned. *)
Lemma compress_session_memory_witness :
  let w := World ∅ [] 0 0 [] in
  let w1 := run_world 600 0 in
  exists out w2 w3,
    (writes_within_output (@deflate (bool * Z) (run_engine 600)) /\
     @mhd_gtls_comp_init (bool * Z) (run_engine 600) gnutls_constants
       MHD_GNUTLS_COMP_DEFLATE 0 w = (Some 1%positive, w1) /\
     @mhd_gtls_compress (bool * Z) (run_engine 600) gnutls_constants
       (Some 1%positive) [x01; x02; x03] 3 None 100 w1 = Returned 3 out w2 /\
     @mhd_gtls_comp_deinit (bool * Z) (run_engine 600) (Some 1%positive) 0 w2
     = Some w3) /\
    (exists p, out = Some p /\ dom (heap w3) = {[p]} ∪ dom (heap w)) /\
    orphaned w3 = orphaned w.
Proof.
  intros w w1.
  assert (Hw : writes_within_output (@deflate (bool * Z) (run_engine 600)))
    by exact (proj1 (proj2 (run_engine_output_space 600))).
  assert (Hi : @mhd_gtls_comp_init (bool * Z) (run_engine 600) gnutls_constants
                 MHD_GNUTLS_COMP_DEFLATE 0 w = (Some 1%positive, w1))
    by (vm_compute; reflexivity).
  destruct (@mhd_gtls_compress (bool * Z) (run_engine 600) gnutls_constants
              (Some 1%positive) [x01; x02; x03] 3 None 100 w1)
    as [r out w2 |] eqn:Hc; [| vm_compute in Hc; discriminate].
  assert (Hr : r = 3) by (vm_compute in Hc; congruence).
  assert (Hout : out = Some 3%positive) by (vm_compute in Hc; congruence).
  subst r out.
  destruct (@mhd_gtls_comp_deinit (bool * Z) (run_engine 600) (Some 1%positive) 0 w2)
    as [w3 |] eqn:Hd.
  2:{ exfalso. vm_compute in Hc. injection Hc as <-. vm_compute in Hd.
      discriminate. }
  destruct (@compress_session_memory (bool * Z) (run_engine 600) gnutls_constants
              w 1%positive w1 [x01; x02; x03] 3 None 100 3 (Some 3%positive) w2 w3
              Hw Hi Hc Hd) as (_ & (_ & Hdom & _) & z & zs2 & Hh2 & _ & Hclean).
  exists (Some 3%positive), w2, w3.
  split; [split; [exact Hw |]; split; [exact Hi |]; split; [reflexivity | exact Hd] |].
  split; [exists 3%positive; split; [reflexivity | exact Hdom] |].
  apply Hclean. destruct Hh2 as [Hh2 Hz2].
  vm_compute in Hc. injection Hc as <-.
  vm_compute in Hh2. injection Hh2 as <-.
  vm_compute in Hz2. injection Hz2 as <-. vm_compute. reflexivity.
Defined.

